(** * Barista chat frontend: the [ChatInterface] component

    A shallow embedding of the React component [ChatInterface]
    (frontend chat UI of the Barista assistant) and of the browser
    environment it runs in, followed by the properties of its chat flow.

    The component keeps its state in [useState] cells.  A handler such as
    [handleSend] is a closure: it reads the cells as they were in the render
    that created it, and it writes through the setters, which act on the
    state the component has when the update is applied.  Both sides are
    explicit below: every handler takes the snapshot it closes over and
    transforms the live state.

    Left out because they touch neither the component state nor the network:
    [alert], [console.error], [inputRef.current?.focus()] and the
    [scrollIntoView] effect. *)

From Stdlib Require Import String Ascii.
From stdpp Require Import base option list strings gmap.

Local Open Scope string_scope.
Local Open Scope list_scope.

(** ** The fragment of JavaScript the component relies on *)

Module JS.

(** A value of type [T | null | undefined]; a missing object field reads
    as [undefined]. *)
Inductive nullish (T : Type) : Type :=
| undefined
| null
| value (v : T).
Arguments undefined {T}.
Arguments null {T}.
Arguments value {T} v.

(** Truthiness of a string: every string but the empty one. *)
Definition truthy (s : string) : bool :=
  match s with
  | EmptyString => false
  | String _ _ => true
  end.

(** Truthiness at type [string | null]. *)
Definition truthy_or_null (o : option string) : bool :=
  match o with
  | Some s => truthy s
  | None => false
  end.

(** Truthiness at type [string | null | undefined]. *)
Definition truthy_nullish (x : nullish string) : bool :=
  match x with
  | value s => truthy s
  | _ => false
  end.

(** [x || d] for [x : string | undefined] and a string [d]. *)
Definition or_else (x : option string) (d : string) : string :=
  match x with
  | Some s => if truthy s then s else d
  | None => d
  end.

(** [x || undefined] at a target of type [string | undefined]. *)
Definition or_undefined (x : nullish string) : option string :=
  match x with
  | value s => if truthy s then Some s else None
  | _ => None
  end.

(** Strings are sequences of code units; the model keeps the code units
    0..255.  Among them ECMAScript's WhiteSpace and LineTerminator are
    TAB, LF, VT, FF, CR, SP and NBSP. *)
Definition is_white_space (c : ascii) : bool :=
  let n := nat_of_ascii c in
  ((9 <=? n)%nat && (n <=? 13)%nat) || (n =? 32)%nat || (n =? 160)%nat.

Fixpoint drop_white_space (l : list ascii) : list ascii :=
  match l with
  | [] => []
  | c :: l' => if is_white_space c then drop_white_space l' else l
  end.

(** [String.prototype.trim]: white space removed from both ends. *)
Definition trim (s : string) : string :=
  string_of_list_ascii
    (rev (drop_white_space (rev (drop_white_space (list_ascii_of_string s))))).

(** A string made of white space only (the empty string included). *)
Definition blank (s : string) : Prop :=
  forallb is_white_space (list_ascii_of_string s) = true.

(** The JSON values the component serialises. *)
Inductive JSON : Type :=
| JSON_null
| JSON_string (s : string).

(** [string | null] as a JSON value. *)
Definition JSON_of_string_or_null (o : option string) : JSON :=
  match o with
  | Some s => JSON_string s
  | None => JSON_null
  end.

End JS.
Import JS.

(** ** Data model *)

(** [interface Message]: [role] is a string constrained to two literals,
    [imageUrl] may be absent. *)
Record Message : Type := mkMessage {
  role : string;
  content : string;
  imageUrl : option string;
}.

(** The [useState] cells of [ChatInterface].  [recognition] is the
    [SpeechRecognition | null] cell; only its being null or not matters here,
    the engine itself lives in the browser (see [World]). *)
Record State : Type := mkState {
  messages : list Message;
  input : string;
  isLoading : bool;
  sessionId : option string;
  isListening : bool;
  recognition : bool;
}.

(** State setters.  [setMessages] is always called with an updater
    function; the others with a value. *)
Definition setMessages (f : list Message -> list Message) (s : State) : State :=
  mkState (f (messages s)) (input s) (isLoading s) (sessionId s)
          (isListening s) (recognition s).

Definition setInput (v : string) (s : State) : State :=
  mkState (messages s) v (isLoading s) (sessionId s)
          (isListening s) (recognition s).

Definition setIsLoading (v : bool) (s : State) : State :=
  mkState (messages s) (input s) v (sessionId s)
          (isListening s) (recognition s).

Definition setSessionId (v : option string) (s : State) : State :=
  mkState (messages s) (input s) (isLoading s) v
          (isListening s) (recognition s).

Definition setIsListening (v : bool) (s : State) : State :=
  mkState (messages s) (input s) (isLoading s) (sessionId s)
          v (recognition s).

Definition setRecognition (v : bool) (s : State) : State :=
  mkState (messages s) (input s) (isLoading s) (sessionId s)
          (isListening s) v.

(** The argument of [fetch]: URL and init object.  [body] is the object
    handed to [JSON.stringify], field by field in source order. *)
Record Request : Type := mkRequest {
  url : string;
  method : string;
  headers : list (string * string);
  body : list (string * JSON);
}.

(** The parsed response body, [data].  The source leaves it untyped; each
    field has the type of the slot the component stores it in:
    [content : string], [sessionId : string | null],
    [imageUrl?: string] after [|| undefined]. *)
Record ChatResponse : Type := mkChatResponse {
  response : string;
  session_id : option string;
  image_url : nullish string;
}.

(** What [await fetch(...)] yields: a [Response] with its [ok] flag, its
    status and the result of [response.json()] ([None] when that promise
    rejects), or a rejection (network failure). *)
Record Response : Type := mkResponse {
  ok : bool;
  status : nat;
  json : option ChatResponse;
}.

Inductive FetchOutcome : Type :=
| fulfilled (r : Response)
| rejected.

(** An ok response with the given text and session identifier, and no
    [image_url] field. *)
Definition reply (text : string) (sid : option string) : FetchOutcome :=
  fulfilled (mkResponse true 200 (Some (mkChatResponse text sid undefined))).

(** ** The browser around the component *)

(** A fetch that has not settled: the rest of [handleSend] waits on it,
    still closed over the render [closure] it was called from. *)
Record Pending : Type := mkPending {
  closure : State;
  request : Request;
}.

(** The mounted component in its page.  [engine] says that the speech
    recognition has been started and has not fired [end] yet; [pending]
    holds the fetches in flight, oldest first; [requests] records every
    fetch issued since the page was opened; [localStorage] is the
    browser's persistent store for the page's origin. *)
Record World : Type := mkWorld {
  ui : State;
  engine : bool;
  pending : list Pending;
  requests : list Request;
  localStorage : gmap string string;
}.

Definition update_ui (f : State -> State) (w : World) : World :=
  mkWorld (f (ui w)) (engine w) (pending w) (requests w) (localStorage w).

Definition set_engine (b : bool) (w : World) : World :=
  mkWorld (ui w) b (pending w) (requests w) (localStorage w).

(** What can happen to the page: the DOM events the JSX listens to, the
    callbacks of the recognition object, and the settling of a fetch
    (the [i]-th one in flight, with its outcome). *)
Inductive Event : Type :=
| input_onChange (v : string)
| input_onKeyDown_Enter
| send_onClick
| voice_onClick
| recognition_onresult (transcript : string)
| recognition_onerror
| recognition_onend
| fetch_settled (i : nat) (o : FetchOutcome).

(** ** The component *)

Section ChatInterface.

(** [process.env.NEXT_PUBLIC_API_BASE_URL], possibly unset. *)
Variable NEXT_PUBLIC_API_BASE_URL : option string.

(** Whether the browser provides [SpeechRecognition] or
    [webkitSpeechRecognition]. *)
Variable SpeechRecognition : bool.

Definition apiBaseUrl : string :=
  or_else NEXT_PUBLIC_API_BASE_URL "http://localhost:8080".

(** The initial values of the [useState] cells: the state of the first
    render. *)
Definition firstRender : State :=
  mkState [] "" false None false false.

(** *** [handleSend]

    [handleSend] is asynchronous.  It is split at its [await]: the part
    that runs at the call, up to the [fetch], and the part that runs once
    the fetch has settled.  In both, [c] is the render the handler closes
    over and [s] the state the setters act on. *)

(** [messageText || input.trim()] *)
Definition send_text (c : State) (messageText : option string) : string :=
  match messageText with
  | Some t => if truthy t then t else trim (input c)
  | None => trim (input c)
  end.

Definition chat_request (text : string) (sid : option string) : Request :=
  mkRequest (apiBaseUrl +:+ "/api/chat/")
            "POST"
            [("Content-Type", "application/json")]
            [("message", JSON_string text);
             ("session_id", JSON_of_string_or_null sid)].

(** From the call to the [fetch]: [None] is the early [return]; otherwise
    the state after the three setters and the request issued. *)
Definition handleSend_call (c : State) (messageText : option string)
    (s : State) : option (State * Request) :=
  let text := send_text c messageText in
  if negb (truthy text) || isLoading c then None
  else
    let userMessage := mkMessage "user" text None in
    let s := setMessages (fun prev => prev ++ [userMessage]) s in
    let s := setInput "" s in
    let s := setIsLoading true s in
    Some (s, chat_request text (sessionId c)).

(** Result of a block: it completed, or it threw. *)
Inductive Completion : Type :=
| Normal (s : State)
| Throw (s : State).

(** The rest of the [try] block, from the settled fetch on. *)
Definition try_block (c : State) (o : FetchOutcome) (s : State) : Completion :=
  match o with
  | rejected => Throw s
  | fulfilled r =>
      if negb (ok r) then Throw s
      else
        match json r with
        | None => Throw s
        | Some data =>
            let s := if negb (truthy_or_null (sessionId c))
                     then setSessionId (session_id data) s
                     else s in
            let assistantMessage :=
              mkMessage "assistant" (response data)
                        (or_undefined (image_url data)) in
            Normal (setMessages (fun prev => prev ++ [assistantMessage]) s)
        end
  end.

Definition errorMessage : Message :=
  mkMessage "assistant" "Sorry, I encountered an error. Please try again." None.

Definition catch_block (s : State) : State :=
  setMessages (fun prev => prev ++ [errorMessage]) s.

Definition finally_block (s : State) : State :=
  setIsLoading false s.

(** From the settled fetch to the end of [handleSend]. *)
Definition handleSend_settle (c : State) (o : FetchOutcome) (s : State) : State :=
  finally_block
    match try_block c o s with
    | Normal s' => s'
    | Throw s' => catch_block s'
    end.

(** A call of [handleSend] that runs to its end with nothing in between:
    the fetch settles with [o] before any other update of the state. *)
Definition handleSend (c : State) (messageText : option string)
    (o : FetchOutcome) (s : State) : State :=
  match handleSend_call c messageText s with
  | None => s
  | Some (s', _) => handleSend_settle c o s'
  end.

(** *** What the render disables *)

Definition input_disabled (s : State) : bool := isLoading s.
Definition voice_button_disabled (s : State) : bool := isLoading s.
Definition send_button_disabled (s : State) : bool :=
  isLoading s || negb (truthy (trim (input s))).

(** *** Calling the handlers in a page *)

(** A call of the [handleSend] of render [c]. *)
Definition call_handleSend (c : State) (messageText : option string)
    (w : World) : World :=
  match handleSend_call c messageText (ui w) with
  | None => w
  | Some (s, req) =>
      mkWorld s (engine w) (pending w ++ [mkPending c req])
              (requests w ++ [req]) (localStorage w)
  end.

(** The [handleVoiceInput] of render [c].  [recognition.stop()] leaves the
    engine running until it fires [end]. *)
Definition handleVoiceInput (c : State) (w : World) : World :=
  if negb (recognition c) then w
  else if isListening c then update_ui (setIsListening false) w
  else set_engine true (update_ui (setIsListening true) w).

(** The mount effect (dependency list [[]]) runs once, after the first
    render: the callbacks it installs on the recognition object are closed
    over that render, [handleSend] included. *)
Definition onresult (transcript : string) (w : World) : World :=
  let w := update_ui (setInput transcript) w in
  let w := update_ui (setIsListening false) w in
  call_handleSend firstRender (Some transcript) w.

Definition onerror (w : World) : World := update_ui (setIsListening false) w.

Definition onend (w : World) : World :=
  set_engine false (update_ui (setIsListening false) w).

(** The page once the component has mounted and the mount effect has run.
    Every cell has its [useState] initial value, but [recognition]. *)
Definition mount (storage : gmap string string) : World :=
  mkWorld (if SpeechRecognition then setRecognition true firstRender
           else firstRender)
          false [] [] storage.

(** A page refresh: the component is mounted anew, fetches in flight are
    dropped, the storage stays. *)
Definition reload (w : World) : World :=
  mkWorld (ui (mount (localStorage w))) false [] (requests w) (localStorage w).

(** One event.  [None]: the event cannot occur (the control is disabled,
    the engine is not running, there is no such fetch).  The handlers
    wired in the JSX are those of the current render. *)
Definition step (w : World) (e : Event) : option World :=
  match e with
  | input_onChange v =>
      if input_disabled (ui w) then None
      else Some (update_ui (setInput v) w)
  | input_onKeyDown_Enter =>
      if input_disabled (ui w) then None
      else Some (call_handleSend (ui w) None w)
  | send_onClick =>
      if send_button_disabled (ui w) then None
      else Some (call_handleSend (ui w) None w)
  | voice_onClick =>
      if voice_button_disabled (ui w) then None
      else Some (handleVoiceInput (ui w) w)
  | recognition_onresult transcript =>
      if engine w then Some (onresult transcript w) else None
  | recognition_onerror =>
      if engine w then Some (onerror w) else None
  | recognition_onend =>
      if engine w then Some (onend w) else None
  | fetch_settled i o =>
      match pending w !! i with
      | None => None
      | Some p =>
          Some (mkWorld (handleSend_settle (closure p) o (ui w)) (engine w)
                        (delete i (pending w)) (requests w) (localStorage w))
      end
  end.

Fixpoint run (w : World) (evs : list Event) : option World :=
  match evs with
  | [] => Some w
  | e :: evs' =>
      match step w e with
      | None => None
      | Some w' => run w' evs'
      end
  end.

(** [along G w evs]: every step of the run of [evs] from [w] satisfies
    [G]. *)
Fixpoint along (G : World -> Event -> World -> bool) (w : World)
    (evs : list Event) : bool :=
  match evs with
  | [] => true
  | e :: evs' =>
      match step w e with
      | None => true
      | Some w' => G w e w' && along G w' evs'
      end
  end.

(** The pages a freshly mounted component can get to. *)
Definition reachable (storage : gmap string string) (w : World) : Prop :=
  exists evs, run (mount storage) evs = Some w.

(** No speech result arrives at this step. *)
Definition typed_only (_ : World) (e : Event) (_ : World) : bool :=
  match e with
  | recognition_onresult _ => false
  | _ => true
  end.

(** Sends are sequential: a send starts only once the previous one has
    completed, so there is never more than one fetch in flight. *)
Definition sequential (_ : World) (_ : Event) (w' : World) : bool :=
  bool_decide (length (pending w') <= 1).

(** The user messages of the conversation: the accepted turns. *)
Definition user_turns (s : State) : list Message :=
  filter (fun m => role m = "user") (messages s).

Definition chat_endpoint : string := apiBaseUrl +:+ "/api/chat/".

(** The page after the events [evs], starting from a fresh mount over an
    empty storage (the fresh mount itself when the events cannot occur in
    this order). *)
Definition after (evs : list Event) : World :=
  default (mount ∅) (run (mount ∅) evs).

(** A fetch that did not bring back an [ok] response. *)
Definition failed (o : FetchOutcome) : bool :=
  match o with
  | rejected => true
  | fulfilled r => negb (ok r)
  end.

(** *** The three kinds of step

    A step is quiet (it touches neither the conversation nor the network),
    or it is an accepted send, or it settles a fetch. *)

Definition quiet_step (w w' : World) : Prop :=
  messages (ui w') = messages (ui w) /\
  isLoading (ui w') = isLoading (ui w) /\
  sessionId (ui w') = sessionId (ui w) /\
  pending w' = pending w /\
  requests w' = requests w /\
  localStorage w' = localStorage w.

Definition send_step (c : State) (text : string) (w w' : World) : Prop :=
  text <> "" /\ isLoading c = false /\
  messages (ui w') = messages (ui w) ++ [mkMessage "user" text None] /\
  isLoading (ui w') = true /\
  sessionId (ui w') = sessionId (ui w) /\
  pending w' =
    pending w ++ [mkPending c (chat_request text (sessionId c))] /\
  requests w' = requests w ++ [chat_request text (sessionId c)] /\
  localStorage w' = localStorage w.

Definition settle_step (i : nat) (o : FetchOutcome) (p : Pending)
    (w w' : World) : Prop :=
  pending w !! i = Some p /\
  ui w' = handleSend_settle (closure p) o (ui w) /\
  pending w' = delete i (pending w) /\
  requests w' = requests w /\
  localStorage w' = localStorage w.

(** The shape of the conversation while sends are sequential: complete
    user/assistant pairs, one per request, followed by the user message of
    the send in flight, if any. *)
Definition paired (w : World) : Prop :=
  (pending w = [] /\
   map role (messages (ui w)) =
     mjoin (replicate (length (requests w)) ["user"; "assistant"])) \/
  (exists p n, pending w = [p] /\ length (requests w) = S n /\
   map role (messages (ui w)) =
     mjoin (replicate n ["user"; "assistant"]) ++ ["user"]).

(** What the loading flag is meant to ensure, and does ensure as long as
    every send goes through a handler of the current render: at most one
    fetch is in flight, the flag is set exactly while there is one, and the
    render that fetch was sent from had the session identifier the
    component still has. *)
Definition single_flight (w : World) : Prop :=
  (pending w = [] /\ isLoading (ui w) = false) \/
  (exists p, pending w = [p] /\ isLoading (ui w) = true /\
             sessionId (closure p) = sessionId (ui w)).

(** *** Reading a request *)

(** The value of field [name] in an object given field by field. *)
Fixpoint field (name : string) (obj : list (string * JSON)) : option JSON :=
  match obj with
  | [] => None
  | (k, v) :: obj' => if String.eqb k name then Some v else field name obj'
  end.

(** A string that neither starts nor ends with white space, and is not
    empty. *)
Definition trimmed (s : string) : Prop :=
  s <> "" /\
  (forall c, head (list_ascii_of_string s) = Some c ->
             is_white_space c = false) /\
  (forall c, last (list_ascii_of_string s) = Some c ->
             is_white_space c = false).

(** *** The rendered page

    The JSX the component returns, as a tree: elements with their props in
    source order and their children, and text.  A listener prop is the
    function from the DOM event it receives to the event of the page it
    raises, if any (see [step] for what that event does). *)

(** What the listeners read off a DOM event. *)
Record DomEvent : Type := mkDomEvent {
  key : string;
  shiftKey : bool;
  target_value : string;
}.

Inductive PropValue : Type :=
| text_prop (s : string)
| bool_prop (b : bool)
| number_prop (n : nat)
| ref_prop (name : string)
| listener (f : DomEvent -> option Event).

#[warnings="-register-all"]
Inductive Node : Type :=
| element (tag : string) (props : list (string * PropValue))
          (children : list Node)
| text_node (s : string).

(** [s.slice(0, n)]: the first [n] code units of [s], all of [s] when it is
    shorter. *)
Definition slice_to (n : nat) (s : string) : string := substring 0 n s.

(** [{sessionId && (<span ...>Session: {sessionId.slice(0, 8)}...</span>)}] *)
Definition session_label (s : State) : list Node :=
  match sessionId s with
  | Some sid =>
      if truthy sid
      then [element "span" [("className", text_prop "text-xs text-amber-500")]
              [text_node "Session: "; text_node (slice_to 8 sid);
               text_node "..."]]
      else []
  | None => []
  end.

Definition header (s : State) : Node :=
  element "header"
    [("className",
      text_prop "border-b border-amber-200 bg-white/80 backdrop-blur-sm")]
    [element "div"
       [("className",
         text_prop
           "mx-auto flex h-16 max-w-4xl items-center justify-between px-6")]
       (element "div" []
          [element "h1"
             [("className", text_prop "text-xl font-bold text-amber-900")]
             [text_node "☕ Barista AI"];
           element "p"
             [("className", text_prop "text-xs text-amber-600")]
             [text_node "Your intelligent coffee assistant"]]
        :: session_label s)].

(** [{messages.length === 0 && (...)}] *)
Definition welcome (s : State) : list Node :=
  match messages s with
  | [] =>
      [element "div"
         [("className",
           text_prop
             "rounded-2xl border border-amber-200 bg-amber-50/50 p-8 text-center")]
         [element "p"
            [("className", text_prop "text-lg font-medium text-amber-900")]
            [text_node "Welcome! I'm your Barista AI assistant."];
          element "p"
            [("className", text_prop "mt-2 text-sm text-amber-700")]
            [text_node
               "Ask me about our menu, check drink availability, view promotions, or see images of our drinks."]]]
  | _ :: _ => []
  end.

(** [{msg.imageUrl && (...)}] *)
Definition bubble_image (msg : Message) : list Node :=
  match imageUrl msg with
  | Some u =>
      if truthy u
      then [element "div" [("className", text_prop "mt-3")]
              [element "img"
                 [("src", text_prop u);
                  ("alt", text_prop "Generated drink");
                  ("className", text_prop "max-w-full rounded-lg")]
                 []]]
      else []
  | None => []
  end.

(** The body of [messages.map((msg, idx) => ...)]. *)
Definition bubble (idx : nat) (msg : Message) : Node :=
  element "div"
    [("key", number_prop idx);
     ("className",
      text_prop
        ("flex " +:+
         (if String.eqb (role msg) "user"
          then "justify-end" else "justify-start")))]
    [element "div"
       [("className",
         text_prop
           ("max-w-[80%] rounded-2xl px-4 py-3 " +:+
            (if String.eqb (role msg) "user"
             then "bg-amber-600 text-white"
             else "bg-white text-amber-900 shadow-sm border border-amber-100")))]
       (element "p"
          [("className", text_prop "whitespace-pre-wrap break-words")]
          [text_node (content msg)]
        :: bubble_image msg)].

(** [{isLoading && (...)}] *)
Definition spinner (s : State) : list Node :=
  if isLoading s
  then [element "div" [("className", text_prop "flex justify-start")]
          [element "div"
             [("className",
               text_prop
                 "rounded-2xl bg-white px-4 py-3 shadow-sm border border-amber-100")]
             [element "Loader2"
                [("className",
                  text_prop "h-5 w-5 animate-spin text-amber-600")]
                []]]]
  else [].

(** The children of the scrolling column: the welcome panel, the message
    rows, the spinner and the scroll anchor. *)
Definition conversation_rows (s : State) : list Node :=
  welcome s ++ imap bubble (messages s) ++ spinner s ++
  [element "div" [("ref", ref_prop "messagesEndRef")] []].

Definition conversation (s : State) : Node :=
  element "div"
    [("className", text_prop "flex-1 overflow-y-auto px-4 py-6")]
    [element "div"
       [("className", text_prop "mx-auto max-w-3xl space-y-4")]
       (conversation_rows s)].

Definition input_bar (s : State) : Node :=
  element "div"
    [("className",
      text_prop "border-t border-amber-200 bg-white/80 backdrop-blur-sm")]
    [element "div"
       [("className", text_prop "mx-auto max-w-3xl px-4 py-4")]
       [element "div"
          [("className", text_prop "flex gap-2")]
          [element "input"
             [("ref", ref_prop "inputRef");
              ("type", text_prop "text");
              ("value", text_prop (input s));
              ("onChange",
               listener (fun e => Some (input_onChange (target_value e))));
              ("onKeyDown",
               listener
                 (fun e =>
                    if String.eqb (key e) "Enter" && negb (shiftKey e)
                    then Some input_onKeyDown_Enter else None));
              ("placeholder",
               text_prop
                 "Ask about our menu, check availability, or view promotions...");
              ("className",
               text_prop
                 "flex-1 rounded-xl border border-amber-200 bg-white px-4 py-3 text-amber-900 placeholder:text-amber-400 focus:border-amber-400 focus:outline-none focus:ring-2 focus:ring-amber-200");
              ("disabled", bool_prop (input_disabled s))]
             [];
           element "button"
             [("onClick", listener (fun _ => Some voice_onClick));
              ("disabled", bool_prop (voice_button_disabled s));
              ("className",
               text_prop
                 ("rounded-xl px-4 py-3 transition-colors " +:+
                  (if isListening s
                   then "bg-red-500 text-white hover:bg-red-600"
                   else "bg-amber-100 text-amber-700 hover:bg-amber-200")
                  +:+ " disabled:opacity-50"));
              ("title",
               text_prop
                 (if isListening s
                  then "Stop listening" else "Start voice input"))]
             [if isListening s
              then element "MicOff" [("className", text_prop "h-5 w-5")] []
              else element "Mic" [("className", text_prop "h-5 w-5")] []];
           element "button"
             [("onClick", listener (fun _ => Some send_onClick));
              ("disabled", bool_prop (send_button_disabled s));
              ("className",
               text_prop
                 "rounded-xl bg-amber-600 px-4 py-3 text-white transition-colors hover:bg-amber-700 disabled:opacity-50")]
             [element "Send" [("className", text_prop "h-5 w-5")] []]]]].

(** The value [ChatInterface] returns. *)
Definition render (s : State) : Node :=
  element "div"
    [("className",
      text_prop
        "flex h-screen flex-col bg-gradient-to-b from-amber-50 to-white")]
    [header s; conversation s; input_bar s].

(** *** Looking into a rendered page *)

(** The values [f] finds on the nodes of a tree, in document order. *)
Fixpoint collect {A : Type} (f : Node -> option A) (n : Node) : list A :=
  match f n with
  | Some a => [a]
  | None => []
  end ++
  match n with
  | element _ _ children => flat_map (collect f) children
  | text_node _ => []
  end.

(** The text a node shows: its text descendants, concatenated. *)
Fixpoint text_content (n : Node) : string :=
  match n with
  | element _ _ children => String.concat "" (map text_content children)
  | text_node s => s
  end.

Definition string_prop (name : string) (n : Node) : option string :=
  match n with
  | element _ props _ =>
      match list_find (fun kv => fst kv = name) props with
      | Some (_, (_, text_prop s)) => Some s
      | _ => None
      end
  | text_node _ => None
  end.

Definition has_tag (t : string) (n : Node) : bool :=
  match n with
  | element tag _ _ => String.eqb tag t
  | text_node _ => false
  end.

(** The [src] of an image. *)
Definition image_src (n : Node) : option string :=
  if has_tag "img" n then string_prop "src" n else None.

(** The text of the paragraph of a message bubble. *)
Definition bubble_text (n : Node) : option string :=
  if has_tag "p" n then
    match string_prop "className" n with
    | Some c => if String.eqb c "whitespace-pre-wrap break-words"
                then Some (text_content n) else None
    | None => None
    end
  else None.

(** The text of a [span]; the session label is the only one. *)
Definition span_text (n : Node) : option string :=
  if has_tag "span" n then Some (text_content n) else None.

(** The welcome panel, recognised by its class. *)
Definition welcome_panel (n : Node) : option unit :=
  match string_prop "className" n with
  | Some c =>
      if String.eqb c
           "rounded-2xl border border-amber-200 bg-amber-50/50 p-8 text-center"
      then Some () else None
  | None => None
  end.

(** The spinner, recognised by its tag. *)
Definition loader (n : Node) : option unit :=
  if has_tag "Loader2" n then Some () else None.

(** The text a user turn submits to [handleSend]: the trimmed input for the
    Enter key and the send button, the transcript for a speech result. *)
Definition submitted_text (w : World) (e : Event) : option string :=
  match e with
  | input_onKeyDown_Enter | send_onClick => Some (trim (input (ui w)))
  | recognition_onresult transcript => Some transcript
  | _ => None
  end.

(** *** Sample runs *)

(** A first turn, typed and answered with a session identifier. *)
Definition first_turn : list Event :=
  [input_onChange "hi"; input_onKeyDown_Enter;
   fetch_settled 0 (reply "Hello!" (Some "0123456789abcdef"))].

(** A turn sent with the button and answered with an image. *)
Definition latte_turn : list Event :=
  [input_onChange " a latte "; send_onClick;
   fetch_settled 0
     (fulfilled
        (mkResponse true 200
           (Some (mkChatResponse "Here it is." (Some "another-session")
                                 (value "/img/latte.png")))))].

(** A typed turn and a speech result that overlap. *)
Definition overlapping_turns : list Event :=
  [voice_onClick; input_onChange "an espresso"; input_onKeyDown_Enter;
   recognition_onresult "a flat white"].

(** ** Properties *)

(** *** JavaScript helpers *)

Lemma truthy_true (s : string) : truthy s = true <-> s <> "".
Proof. destruct s; simpl; split; congruence. Qed.

Lemma drop_white_space_all (l : list ascii) :
  forallb is_white_space l = true -> drop_white_space l = [].
Proof.
  induction l as [|c l IH]; simpl; [reflexivity|].
  intros [Hc Hl]%andb_true_iff. rewrite Hc. auto.
Qed.

Lemma trim_blank (s : string) : blank s -> trim s = "".
Proof.
  unfold blank, trim. intros H.
  rewrite (drop_white_space_all _ H). reflexivity.
Qed.

(** *** The two halves of [handleSend] *)

Lemma handleSend_call_None (c : State) (mt : option string) (s : State) :
  truthy (send_text c mt) = false \/ isLoading c = true ->
  handleSend_call c mt s = None.
Proof.
  unfold handleSend_call. intros [-> | ->]; simpl; [reflexivity|].
  rewrite orb_true_r. reflexivity.
Qed.

Lemma handleSend_call_Some (c : State) (mt : option string) (s s' : State)
    (r : Request) :
  handleSend_call c mt s = Some (s', r) ->
  truthy (send_text c mt) = true /\ isLoading c = false /\
  r = chat_request (send_text c mt) (sessionId c) /\
  s' = mkState (messages s ++ [mkMessage "user" (send_text c mt) None])
               "" true (sessionId s) (isListening s) (recognition s).
Proof.
  unfold handleSend_call.
  destruct (truthy (send_text c mt)), (isLoading c); simpl; try discriminate.
  intros [= <- <-]. repeat split.
Qed.

Lemma handleSend_settle_failed (c : State) (o : FetchOutcome) (s : State) :
  failed o = true ->
  handleSend_settle c o s =
    mkState (messages s ++ [errorMessage]) (input s) false (sessionId s)
            (isListening s) (recognition s).
Proof.
  unfold handleSend_settle, try_block, failed.
  destruct o as [r|]; [intros ->|]; reflexivity.
Qed.

Lemma handleSend_settle_ok (c : State) (r : Response) (data : ChatResponse)
    (s : State) :
  ok r = true -> json r = Some data ->
  handleSend_settle c (fulfilled r) s =
    mkState (messages s ++
               [mkMessage "assistant" (response data)
                          (or_undefined (image_url data))])
            (input s) false
            (if truthy_or_null (sessionId c) then sessionId s
             else session_id data)
            (isListening s) (recognition s).
Proof.
  unfold handleSend_settle, try_block. intros -> ->. simpl.
  destruct (truthy_or_null (sessionId c)); reflexivity.
Qed.

(** Whatever the outcome, settling appends one assistant message and
    clears the loading flag. *)
Lemma handleSend_settle_appends (c : State) (o : FetchOutcome) (s : State) :
  exists m, role m = "assistant" /\
    messages (handleSend_settle c o s) = messages s ++ [m] /\
    isLoading (handleSend_settle c o s) = false /\
    input (handleSend_settle c o s) = input s /\
    isListening (handleSend_settle c o s) = isListening s /\
    recognition (handleSend_settle c o s) = recognition s.
Proof.
  unfold handleSend_settle, try_block.
  destruct o as [r|]; [destruct (ok r); [destruct (json r) as [data|]|]|];
    simpl; try (by exists errorMessage).
  exists (mkMessage "assistant" (response data) (or_undefined (image_url data))).
  by destruct (truthy_or_null (sessionId c)).
Qed.

(** A send that is accepted and completes appends the user message and
    one assistant message, whatever the outcome. *)
Lemma handleSend_appends_two (c : State) (mt : option string)
    (o : FetchOutcome) (s : State) :
  truthy (send_text c mt) = true -> isLoading c = false ->
  exists m, role m = "assistant" /\
    messages (handleSend c mt o s) =
      messages s ++ [mkMessage "user" (send_text c mt) None; m] /\
    isLoading (handleSend c mt o s) = false.
Proof.
  intros Ht Hl. unfold handleSend, handleSend_call. rewrite Ht, Hl.
  cbn [negb orb].
  set (s1 := setIsLoading true _).
  destruct (handleSend_settle_appends c o s1) as (m & Hm & Hms & Hld & _).
  exists m. rewrite Hms, Hld. subst s1. simpl. rewrite <- app_assoc. auto.
Qed.

Lemma call_handleSend_rejected (c : State) (mt : option string) (w : World) :
  truthy (send_text c mt) = false \/ isLoading c = true ->
  call_handleSend c mt w = w.
Proof.
  intros H. unfold call_handleSend.
  rewrite (handleSend_call_None c mt (ui w) H). reflexivity.
Qed.

Lemma call_handleSend_accepted (c : State) (mt : option string) (w : World) :
  truthy (send_text c mt) = true -> isLoading c = false ->
  call_handleSend c mt w =
    mkWorld (mkState (messages (ui w) ++
                        [mkMessage "user" (send_text c mt) None])
                     "" true (sessionId (ui w)) (isListening (ui w))
                     (recognition (ui w)))
            (engine w)
            (pending w ++
               [mkPending c (chat_request (send_text c mt) (sessionId c))])
            (requests w ++ [chat_request (send_text c mt) (sessionId c)])
            (localStorage w).
Proof.
  intros Ht Hl. unfold call_handleSend, handleSend_call.
  rewrite Ht, Hl. reflexivity.
Qed.

Lemma call_handleSend_cases (c : State) (mt : option string) (w : World) :
  (call_handleSend c mt w = w /\
   (truthy (send_text c mt) = false \/ isLoading c = true)) \/
  (truthy (send_text c mt) = true /\ isLoading c = false /\
   call_handleSend c mt w =
    mkWorld (mkState (messages (ui w) ++
                        [mkMessage "user" (send_text c mt) None])
                     "" true (sessionId (ui w)) (isListening (ui w))
                     (recognition (ui w)))
            (engine w)
            (pending w ++
               [mkPending c (chat_request (send_text c mt) (sessionId c))])
            (requests w ++ [chat_request (send_text c mt) (sessionId c)])
            (localStorage w)).
Proof.
  destruct (truthy (send_text c mt)) eqn:Ht; [destruct (isLoading c) eqn:Hl|].
  - left. split; [apply call_handleSend_rejected|]; auto.
  - right. split; [|split]; auto using call_handleSend_accepted.
  - left. split; [apply call_handleSend_rejected|]; auto.
Qed.

(** *** Single steps *)

Lemma step_fetch_settled (w w' : World) (i : nat) (o : FetchOutcome) :
  step w (fetch_settled i o) = Some w' ->
  exists p, pending w !! i = Some p /\
    w' = mkWorld (handleSend_settle (closure p) o (ui w)) (engine w)
                 (delete i (pending w)) (requests w) (localStorage w).
Proof.
  simpl. destruct (pending w !! i) as [p|]; [|discriminate].
  intros [= <-]. by exists p.
Qed.

(** C8. A call of [handleSend] without a message argument, made from a
    render whose input is empty or consists of white space only, changes
    nothing: the page afterwards is the page before, so no message is
    appended, no request is sent or put in flight, and the input, the
    loading flag and the session identifier keep their values. *)
Theorem handleSend_blank_input_changes_nothing (c : State) (w : World) :
  blank (input c) ->
  handleSend_call c None (ui w) = None /\ call_handleSend c None w = w.
Proof.
  intros Hb.
  assert (truthy (send_text c None) = false) as Ht.
  { simpl. by rewrite (trim_blank _ Hb). }
  split; [apply handleSend_call_None | apply call_handleSend_rejected]; auto.
Qed.

(** C9. The assistant message built from a successful response carries an
    image URL exactly when the [image_url] of the response is truthy, and
    then it is that URL; a missing, null or empty [image_url] gives a
    message whose [imageUrl] is undefined. *)
Theorem assistant_image_iff_truthy (c : State) (r : Response)
    (data : ChatResponse) (s : State) :
  ok r = true -> json r = Some data ->
  exists m,
    messages (handleSend_settle c (fulfilled r) s) = messages s ++ [m] /\
    role m = "assistant" /\
    (is_Some (imageUrl m) <-> truthy_nullish (image_url data) = true) /\
    (forall u, imageUrl m = Some u <->
               image_url data = value u /\ truthy u = true) /\
    (image_url data = undefined \/ image_url data = null \/
     image_url data = value "" -> imageUrl m = None).
Proof.
  intros Hok Hjson.
  rewrite (handleSend_settle_ok c r data s Hok Hjson). simpl.
  eexists. split; [reflexivity|]. split; [reflexivity|]. simpl.
  split; [|split].
  - destruct (image_url data) as [| |v]; simpl;
      [split; [intros [? [=]] | discriminate]..|].
    destruct (truthy v); split; eauto; try discriminate. intros [? [=]].
  - intros u. destruct (image_url data) as [| |v]; simpl.
    + split; [discriminate | intros [? _]; discriminate].
    + split; [discriminate | intros [? _]; discriminate].
    + destruct (truthy v) eqn:Hv.
      * split; [intros [= ->]; auto | intros [[= ->] _]; reflexivity].
      * split; [discriminate | intros [[= ->] Hu]; congruence].
  - intros [-> | [-> | ->]]; reflexivity.
Qed.

(** C2. When the fetch of a send is rejected, or comes back with a status
    that is not ok, the component appends exactly one message, the
    assistant's static apology without image URL; it issues no further
    request and puts nothing new in flight (no retry); and the loading flag
    is false afterwards. *)
Theorem failed_send_apologises_once (w w' : World) (i : nat)
    (o : FetchOutcome) :
  step w (fetch_settled i o) = Some w' -> failed o = true ->
  messages (ui w') =
    messages (ui w) ++
      [mkMessage "assistant"
                 "Sorry, I encountered an error. Please try again." None] /\
  requests w' = requests w /\
  pending w' = delete i (pending w) /\
  isLoading (ui w') = false.
Proof.
  intros Hstep Hf. apply step_fetch_settled in Hstep as (p & _ & ->).
  cbn [ui requests pending].
  rewrite (handleSend_settle_failed _ _ _ Hf). repeat split.
Qed.


Lemma call_handleSend_step (c : State) (mt : option string) (w : World) :
  quiet_step w (call_handleSend c mt w) \/
  send_step c (send_text c mt) w (call_handleSend c mt w).
Proof.
  destruct (call_handleSend_cases c mt w) as [[-> _] | (Ht & Hl & ->)].
  - left. by repeat split.
  - right. apply truthy_true in Ht. by repeat split.
Qed.

Lemma step_cases (w w' : World) (e : Event) :
  step w e = Some w' ->
  quiet_step w w' \/
  (exists text,
     (e = input_onKeyDown_Enter \/ e = send_onClick) /\
     text = trim (input (ui w)) /\ send_step (ui w) text w w') \/
  (exists text, e = recognition_onresult text /\
     send_step firstRender text w w') \/
  (exists i o p, e = fetch_settled i o /\ settle_step i o p w w').
Proof.
  destruct e; simpl; intros Hstep.
  - destruct (input_disabled (ui w)); [discriminate|].
    injection Hstep as <-. left. by repeat split.
  - destruct (input_disabled (ui w)); [discriminate|].
    injection Hstep as <-.
    destruct (call_handleSend_step (ui w) None w) as [H|H]; [by left|].
    right; left. exists (trim (input (ui w))). auto.
  - destruct (send_button_disabled (ui w)); [discriminate|].
    injection Hstep as <-.
    destruct (call_handleSend_step (ui w) None w) as [H|H]; [by left|].
    right; left. exists (trim (input (ui w))). auto.
  - destruct (voice_button_disabled (ui w)); [discriminate|].
    injection Hstep as <-. left. unfold handleVoiceInput.
    destruct (recognition (ui w)), (isListening (ui w)); by repeat split.
  - destruct (engine w); [|discriminate].
    injection Hstep as <-. unfold onresult.
    set (v := update_ui (setIsListening false)
                        (update_ui (setInput transcript) w)).
    destruct (call_handleSend_cases firstRender (Some transcript) v)
      as [[-> _] | (Ht & Hl & ->)].
    + left. by repeat split.
    + right; right; left. exists transcript. split; [reflexivity|].
      destruct transcript as [|a t]; [discriminate|]. by repeat split.
  - destruct (engine w); [|discriminate].
    injection Hstep as <-. left. by repeat split.
  - destruct (engine w); [|discriminate].
    injection Hstep as <-. left. by repeat split.
  - destruct (pending w !! i) as [p|] eqn:Hp; [|discriminate].
    injection Hstep as <-. right; right; right.
    exists i, o, p. by repeat split.
Qed.

(** The request of a step that sends one. *)
Lemma sent_request_shape (w w' : World) (e : Event) :
  step w e = Some w' ->
  forall r, requests w' = requests w ++ [r] ->
     exists text, text <> "" /\
       text = match e with
              | recognition_onresult transcript => transcript
              | _ => trim (input (ui w))
              end /\
       r = chat_request text
             match e with
             | recognition_onresult _ => None
             | _ => sessionId (ui w)
             end.
Proof.
  intros Hstep r Hr.
  assert (forall (l : list Request) x, l <> l ++ [x]) as Hne.
  { intros l x H. apply (f_equal length) in H.
    rewrite length_app in H. simpl in H. lia. }
  destruct (step_cases _ _ _ Hstep)
    as [H | [(text & He & Ht & H) | [(text & -> & H) | (i & o & p & _ & H)]]].
  - destruct H as (_ & _ & _ & _ & H & _). rewrite H in Hr. by apply Hne in Hr.
  - destruct H as (Hne' & _ & _ & _ & _ & _ & H & _).
    rewrite H in Hr. apply app_inj_tail in Hr as [_ <-].
    exists text. by destruct He as [-> | ->].
  - destruct H as (Hne' & _ & _ & _ & _ & _ & H & _).
    rewrite H in Hr. apply app_inj_tail in Hr as [_ <-].
    by exists text.
  - destruct H as (_ & _ & _ & H & _). rewrite H in Hr. by apply Hne in Hr.
Qed.

(** *** Runs *)

Lemma run_app (w : World) (evs1 evs2 : list Event) :
  run w (evs1 ++ evs2) =
    match run w evs1 with
    | None => None
    | Some w1 => run w1 evs2
    end.
Proof.
  revert w. induction evs1 as [|e evs1 IH]; intros w; simpl; [reflexivity|].
  destruct (step w e); [apply IH | reflexivity].
Qed.

Lemma along_app (G : World -> Event -> World -> bool) (w w1 : World)
    (evs1 evs2 : list Event) :
  run w evs1 = Some w1 ->
  along G w (evs1 ++ evs2) = along G w evs1 && along G w1 evs2.
Proof.
  revert w. induction evs1 as [|e evs1 IH]; intros w; simpl.
  - by intros [= ->].
  - destruct (step w e) as [v|]; [|discriminate].
    intros Hrun. rewrite (IH _ Hrun). by rewrite andb_assoc.
Qed.

(** A property kept by every step that satisfies [G] holds along every run
    whose steps satisfy [G]. *)
Lemma run_along_invariant (G : World -> Event -> World -> bool)
    (P : World -> Prop) :
  (forall w e w', P w -> step w e = Some w' -> G w e w' = true -> P w') ->
  forall evs w w',
    P w -> run w evs = Some w' -> along G w evs = true -> P w'.
Proof.
  intros Hstep. induction evs as [|e evs IH]; intros w w' HP; simpl.
  - by intros [= <-].
  - destruct (step w e) as [v|] eqn:Hv; [|discriminate].
    intros Hrun [HG Hal]%andb_true_iff. eauto.
Qed.

Lemma along_any (w : World) (evs : list Event) :
  along (fun _ _ _ => true) w evs = true.
Proof.
  revert w. induction evs as [|e evs IH]; intros w; simpl; [reflexivity|].
  destruct (step w e); auto.
Qed.

Lemma reachable_invariant (P : World -> Prop) (storage : gmap string string) :
  P (mount storage) ->
  (forall w e w', P w -> step w e = Some w' -> P w') ->
  forall w, reachable storage w -> P w.
Proof.
  intros H0 Hstep w [evs Hrun].
  apply (run_along_invariant (fun _ _ _ => true) P) with evs (mount storage);
    [eauto | assumption | assumption | apply along_any].
Qed.

(** *** The conversation *)

Lemma step_messages (w w' : World) (e : Event) :
  step w e = Some w' ->
  messages (ui w') = messages (ui w) /\ requests w' = requests w \/
  (exists text c, text <> "" /\
     messages (ui w') = messages (ui w) ++ [mkMessage "user" text None] /\
     requests w' = requests w ++ [chat_request text (sessionId c)]) \/
  (exists m, role m = "assistant" /\
     messages (ui w') = messages (ui w) ++ [m] /\ requests w' = requests w).
Proof.
  intros Hstep.
  destruct (step_cases _ _ _ Hstep)
    as [H | [(text & _ & _ & H) | [(text & _ & H) | (i & o & p & _ & H)]]].
  - left. destruct H as (? & _ & _ & _ & ? & _). auto.
  - right; left. exists text, (ui w).
    destruct H as (? & _ & ? & _ & _ & _ & ? & _). auto.
  - right; left. exists text, firstRender.
    destruct H as (? & _ & ? & _ & _ & _ & ? & _). auto.
  - right; right. destruct H as (_ & Hui & _ & Hr & _).
    destruct (handleSend_settle_appends (closure p) o (ui w))
      as (m & Hm & Hms & _).
    exists m. rewrite Hui. auto.
Qed.

(** C6. Every message the component ever holds has the role ["user"] or
    the role ["assistant"] (its content is a string and its image URL a
    string or absent by the type of [messages]): no step of the page puts
    any other message in the list. *)
Theorem messages_have_user_or_assistant_role (storage : gmap string string)
    (w : World) :
  reachable storage w ->
  Forall (fun m => role m = "user" \/ role m = "assistant")
         (messages (ui w)).
Proof.
  apply (reachable_invariant
           (fun w => Forall (fun m => role m = "user" \/ role m = "assistant")
                            (messages (ui w)))).
  - unfold mount. destruct SpeechRecognition; constructor.
  - intros v e v' IH Hstep.
    destruct (step_messages _ _ _ Hstep)
      as [[-> _] | [(text & c & _ & -> & _) | (m & Hm & -> & _)]].
    + exact IH.
    + apply Forall_app. split; [exact IH|]. apply Forall_singleton. by left.
    + apply Forall_app. split; [exact IH|]. apply Forall_singleton. by right.
Qed.

(** C7. Every accepted user turn produces exactly one POST to the chat
    endpoint, and nothing else produces a request.  In every page the
    component can get to: a turn submitted with the Enter key, the send
    button or by voice, whose text is not empty, while nothing is loading,
    is accepted, and the step issues exactly one request, a POST to
    [/api/chat/] under the configured base URL carrying that text, and
    appends the user message; no step issues more than one request, and a
    step issues one only together with a user message; so there are as many
    requests issued as user messages in the conversation, and every one of
    them is a POST to that endpoint. *)
Theorem one_post_to_chat_endpoint_per_turn (storage : gmap string string)
    (w w' : World) (e : Event) :
  reachable storage w ->
  step w e = Some w' ->
  (forall text, submitted_text w e = Some text -> truthy text = true ->
     isLoading (ui w) = false ->
     exists r, requests w' = requests w ++ [r] /\
       method r = "POST" /\ url r = apiBaseUrl +:+ "/api/chat/" /\
       field "message" (body r) = Some (JSON_string text) /\
       user_turns (ui w') = user_turns (ui w) ++ [mkMessage "user" text None]) /\
  (requests w' = requests w /\ user_turns (ui w') = user_turns (ui w) \/
   exists r m, requests w' = requests w ++ [r] /\
     user_turns (ui w') = user_turns (ui w) ++ [m]) /\
  length (requests w) = length (user_turns (ui w)) /\
  length (requests w') = length (user_turns (ui w')) /\
  Forall (fun r => method r = "POST" /\ url r = apiBaseUrl +:+ "/api/chat/")
         (requests w').
Proof.
  intros Hreach Hstep.
  assert (forall v, reachable storage v ->
            length (requests v) = length (user_turns (ui v)) /\
            Forall (fun r => method r = "POST" /\
                             url r = apiBaseUrl +:+ "/api/chat/")
                   (requests v)) as Hinv.
  { apply (reachable_invariant
             (fun v =>
                length (requests v) = length (user_turns (ui v)) /\
                Forall (fun r => method r = "POST" /\
                                 url r = apiBaseUrl +:+ "/api/chat/")
                       (requests v))).
    - unfold mount. destruct SpeechRecognition; by split.
    - intros v e0 v' [IHn IHr] Hstep0. unfold user_turns in *.
      destruct (step_messages _ _ _ Hstep0)
        as [[-> ->] | [(text & c & _ & -> & ->) | (m & Hm & -> & ->)]].
      + by split.
      + rewrite filter_app, !length_app, IHn. split; [reflexivity|].
        apply Forall_app. split; [exact IHr|]. by apply Forall_singleton.
      + rewrite filter_app, length_app, IHn. split; [|exact IHr].
        rewrite filter_cons_False by (rewrite Hm; discriminate).
        simpl. lia. }
  assert (reachable storage w') as Hreach'.
  { destruct Hreach as [evs Hrun]. exists (evs ++ [e]).
    rewrite run_app, Hrun. simpl. by rewrite Hstep. }
  destruct (Hinv w Hreach) as [Hn _]. destruct (Hinv w' Hreach') as [Hn' Hall'].
  split; [|split; [|by repeat split]].
  - intros text Hsub Ht Hl.
    assert (forall c mt (v : World),
              send_text c mt = text -> isLoading c = false ->
              exists r, requests (call_handleSend c mt v) = requests v ++ [r] /\
                method r = "POST" /\ url r = apiBaseUrl +:+ "/api/chat/" /\
                field "message" (body r) = Some (JSON_string text) /\
                user_turns (ui (call_handleSend c mt v)) =
                  user_turns (ui v) ++ [mkMessage "user" text None]) as Hcall.
    { intros c mt v Hc Hlc. rewrite <- Hc in Ht.
      rewrite (call_handleSend_accepted c mt v Ht Hlc), Hc.
      exists (chat_request text (sessionId c)). cbn [requests ui].
      repeat split. unfold user_turns. cbn [messages].
      by rewrite filter_app. }
    destruct e; simpl in Hsub, Hstep; try discriminate.
    + injection Hsub as <-.
      destruct (input_disabled (ui w)); [discriminate|].
      injection Hstep as <-. by apply Hcall.
    + injection Hsub as <-.
      destruct (send_button_disabled (ui w)); [discriminate|].
      injection Hstep as <-. by apply Hcall.
    + injection Hsub as <-.
      destruct (engine w); [|discriminate].
      injection Hstep as <-. unfold onresult.
      apply (Hcall firstRender (Some transcript)
               (update_ui (setIsListening false)
                          (update_ui (setInput transcript) w)));
        [|reflexivity].
      simpl. by rewrite Ht.
  - unfold user_turns.
    destruct (step_messages _ _ _ Hstep)
      as [[-> ->] | [(text & c & _ & -> & ->) | (m & Hm & -> & ->)]].
    + by left.
    + right. exists (chat_request text (sessionId c)).
      exists (mkMessage "user" text None). by rewrite filter_app.
    + left. split; [reflexivity|]. rewrite filter_app.
      rewrite filter_cons_False by (rewrite Hm; discriminate).
      by rewrite filter_nil, app_nil_r.
Qed.

Lemma turns_snoc (n : nat) :
  mjoin (replicate n ["user"; "assistant"]) ++ ["user"; "assistant"] =
  mjoin (replicate (S n) ["user"; "assistant"]).
Proof.
  induction n as [|n IH]; [reflexivity|].
  change (mjoin (replicate (S n) ["user"; "assistant"]))
    with (["user"; "assistant"] ++ mjoin (replicate n ["user"; "assistant"])).
  rewrite <- app_assoc, IH. reflexivity.
Qed.

Lemma paired_step (w w' : World) (e : Event) :
  paired w -> step w e = Some w' -> sequential w e w' = true -> paired w'.
Proof.
  intros HP Hstep Hseq. apply bool_decide_eq_true in Hseq.
  assert (forall c text, send_step c text w w' -> paired w') as Hsend.
  { intros c text (_ & _ & Hm & _ & _ & Hp & Hr & _).
    rewrite Hp, length_app in Hseq. simpl in Hseq.
    destruct (pending w) as [|q l] eqn:Hq; [|simpl in Hseq; lia].
    destruct HP as [[_ HP] | (q & n & ? & _)]; [|congruence].
    right. exists (mkPending c (chat_request text (sessionId c))).
    exists (length (requests w)). rewrite Hp, Hr, Hm, length_app, map_app, HP.
    simpl. split; [reflexivity|]. split; [lia | reflexivity]. }
  destruct (step_cases _ _ _ Hstep)
    as [H | [(text & _ & _ & H) | [(text & _ & H) | (i & o & p & _ & H)]]];
    eauto.
  - destruct H as (Hm & _ & _ & Hp & Hr & _).
    unfold paired. by rewrite Hm, Hp, Hr.
  - destruct H as (Hi & Hui & Hp & Hr & _).
    destruct HP as [[HP _] | (q & n & HP & Hn & Hroles)].
    { rewrite HP in Hi. discriminate. }
    rewrite HP in Hi, Hp. destruct i as [|i]; [|discriminate].
    left. split; [exact Hp|].
    destruct (handleSend_settle_appends (closure p) o (ui w))
      as (m & Hm & Hms & _).
    rewrite Hui, Hms, Hr, Hn, map_app, Hroles. simpl. rewrite Hm.
    rewrite <- app_assoc. apply turns_snoc.
Qed.

(** C10. A completed send has appended exactly two messages, the user
    message and then one assistant message, whatever the outcome of the
    request: while sends are sequential, whenever no send is in flight the
    conversation consists of one user/assistant pair per request issued.
    Its length is even and its roles alternate, beginning with ["user"]. *)
Theorem sequential_sends_alternate (storage : gmap string string)
    (evs : list Event) (w : World) :
  run (mount storage) evs = Some w ->
  along sequential (mount storage) evs = true ->
  pending w = [] ->
  length (messages (ui w)) = 2 * length (requests w) /\
  map role (messages (ui w)) =
    mjoin (replicate (length (requests w)) ["user"; "assistant"]).
Proof.
  intros Hrun Hseq Hp.
  assert (paired w) as [[_ H] | (p & n & Hp' & _)].
  { apply (run_along_invariant sequential paired
             (fun v e v' => paired_step v v' e) evs (mount storage)); auto.
    left. unfold mount. destruct SpeechRecognition; by split. }
  - split; [|exact H].
    apply (f_equal length) in H. rewrite length_map in H. rewrite H.
    generalize (length (requests w)) as n.
    induction n as [|n IH]; [reflexivity|].
    change (mjoin (replicate (S n) ["user"; "assistant"]))
      with (["user"; "assistant"] ++ mjoin (replicate n ["user"; "assistant"])).
    rewrite length_app, IH. simpl. lia.
  - rewrite Hp in Hp'. discriminate.
Qed.

(** *** The session identifier *)

Lemma handleSend_settle_sessionId (c : State) (o : FetchOutcome) (s : State) :
  sessionId (handleSend_settle c o s) =
    match o with
    | fulfilled r =>
        match json r with
        | Some data =>
            if ok r && negb (truthy_or_null (sessionId c))
            then session_id data else sessionId s
        | None => sessionId s
        end
    | rejected => sessionId s
    end.
Proof.
  unfold handleSend_settle, try_block.
  destruct o as [r|]; [|reflexivity].
  destruct (ok r), (json r) as [data|]; simpl; try reflexivity.
  by destruct (truthy_or_null (sessionId c)).
Qed.

Lemma single_flight_mount (storage : gmap string string) :
  single_flight (mount storage).
Proof. left. unfold mount. by destruct SpeechRecognition. Qed.

Lemma single_flight_step (w w' : World) (e : Event) :
  single_flight w -> step w e = Some w' -> typed_only w e w' = true ->
  single_flight w'.
Proof.
  intros HI Hstep Hty.
  destruct (step_cases _ _ _ Hstep)
    as [H | [(text & _ & _ & H) | [(text & -> & _) | (i & o & p & _ & H)]]].
  - destruct H as (_ & Hl & Hs & Hp & _).
    unfold single_flight. by rewrite Hl, Hs, Hp.
  - destruct H as (_ & Hl & _ & Hl' & Hs & Hp & _).
    destruct HI as [[HI _] | (q & _ & ? & _)]; [|congruence].
    right. exists (mkPending (ui w) (chat_request text (sessionId (ui w)))).
    rewrite Hp, HI. by repeat split.
  - discriminate.
  - destruct H as (Hi & Hui & Hp & _).
    destruct HI as [[HI _] | (q & HI & _)]; rewrite HI in Hi; [discriminate|].
    destruct i as [|i]; [|discriminate].
    left. rewrite Hp, HI, Hui. split; [reflexivity|].
    by destruct (handleSend_settle_appends (closure p) o (ui w))
      as (m & _ & _ & ? & _).
Qed.

Lemma single_flight_run (storage : gmap string string) (evs : list Event)
    (w : World) :
  run (mount storage) evs = Some w ->
  along typed_only (mount storage) evs = true ->
  single_flight w.
Proof.
  apply (run_along_invariant typed_only single_flight
           (fun v e v' => single_flight_step v v' e)).
  apply single_flight_mount.
Qed.

(** How one step of a run without speech results treats the session
    identifier. *)
Lemma session_step (w w' : World) (e : Event) :
  single_flight w -> step w e = Some w' -> typed_only w e w' = true ->
  sessionId (ui w') =
    match e with
    | fetch_settled _ (fulfilled r) =>
        match json r with
        | Some data =>
            if ok r && negb (truthy_or_null (sessionId (ui w)))
            then session_id data else sessionId (ui w)
        | None => sessionId (ui w)
        end
    | _ => sessionId (ui w)
    end.
Proof.
  intros HI Hstep Hty.
  destruct (step_cases _ _ _ Hstep)
    as [H | [(text & He & _ & H) | [(text & -> & _) | (i & o & p & -> & H)]]].
  - destruct H as (_ & _ & Hs & Hp & _).
    destruct e as [| | | | | | |i o]; try exact Hs.
    apply step_fetch_settled in Hstep as (p & Hi & ->). simpl in Hp.
    apply (f_equal length) in Hp. rewrite length_delete in Hp.
    + apply lookup_lt_Some in Hi. lia.
    + by exists p.
  - destruct H as (_ & _ & _ & _ & Hs & _). by destruct He as [-> | ->].
  - discriminate.
  - destruct H as (Hi & Hui & _).
    destruct HI as [[HI _] | (q & HI & _ & Hc)]; rewrite HI in Hi;
      [discriminate|].
    destruct i as [|i]; [|discriminate]. injection Hi as <-.
    rewrite Hui, handleSend_settle_sessionId, Hc. reflexivity.
Qed.

Lemma session_step_kept (w w' : World) (e : Event) :
  single_flight w -> step w e = Some w' -> typed_only w e w' = true ->
  truthy_or_null (sessionId (ui w)) = true ->
  sessionId (ui w') = sessionId (ui w).
Proof.
  intros HI Hstep Hty Ht. rewrite (session_step w w' e HI Hstep Hty).
  destruct e as [| | | | | | |i [r|]]; try reflexivity.
  destruct (json r) as [data|]; [|reflexivity].
  by rewrite Ht, andb_false_r.
Qed.

Lemma session_kept (w w' : World) (evs : list Event) :
  single_flight w -> truthy_or_null (sessionId (ui w)) = true ->
  run w evs = Some w' -> along typed_only w evs = true ->
  sessionId (ui w') = sessionId (ui w).
Proof.
  intros HI Ht Hrun Hal.
  apply (run_along_invariant typed_only
           (fun v => single_flight v /\ sessionId (ui v) = sessionId (ui w)))
    with (w' := w') in Hal; [tauto | | auto | auto].
  intros v e v' [HIv Hv] Hstep Hty. split; [by eapply single_flight_step|].
  rewrite <- Hv. apply session_step_kept with e; auto. by rewrite Hv.
Qed.

(** The session identifier in a run without speech results, where every
    send goes through a handler of the current render.  It starts as
    [null]; a request carries the identifier the component holds when the
    turn is accepted; an ok response whose body parses sets the identifier
    to its [session_id] when the identifier held is [null] or empty; no
    other step changes the identifier; and an identifier that is a
    non-empty string is kept for the rest of the run. *)
Lemma session_created_once_then_reused (storage : gmap string string)
    (evs evs' : list Event) (e : Event) (w w' w'' : World) :
  run (mount storage) evs = Some w ->
  step w e = Some w' ->
  run w' evs' = Some w'' ->
  along typed_only (mount storage) (evs ++ e :: evs') = true ->
  sessionId (ui (mount storage)) = None /\
  (forall r, requests w' = requests w ++ [r] ->
     body r = [("message", JSON_string (trim (input (ui w))));
               ("session_id", JSON_of_string_or_null (sessionId (ui w)))]) /\
  (forall i r data, e = fetch_settled i (fulfilled r) ->
     ok r = true -> json r = Some data ->
     truthy_or_null (sessionId (ui w)) = false ->
     sessionId (ui w') = session_id data) /\
  (sessionId (ui w') <> sessionId (ui w) ->
     truthy_or_null (sessionId (ui w)) = false /\
     exists i r data, e = fetch_settled i (fulfilled r) /\
       ok r = true /\ json r = Some data) /\
  (truthy_or_null (sessionId (ui w)) = true ->
     sessionId (ui w'') = sessionId (ui w)).
Proof.
  intros Hrun Hstep Hrun' Hal.
  rewrite (along_app _ _ _ _ _ Hrun) in Hal.
  apply andb_true_iff in Hal as [Hal Hal']. simpl in Hal'.
  rewrite Hstep in Hal'. apply andb_true_iff in Hal' as [Hty Hal'].
  pose proof (single_flight_run _ _ _ Hrun Hal) as HI.
  pose proof (session_step _ _ _ HI Hstep Hty) as Hs.
  split; [|split; [|split; [|split]]].
  - unfold mount. by destruct SpeechRecognition.
  - intros r Hr.
    destruct (sent_request_shape w w' e Hstep r Hr)
      as (text & _ & -> & Hb).
    rewrite Hb. by destruct e.
  - intros i r data -> Hok Hjson Ht. by rewrite Hs, Hjson, Hok, Ht.
  - intros Hne. rewrite Hs in Hne.
    destruct e as [| | | | | | |i [r|]]; try done.
    destruct (json r) as [data|] eqn:Hj; [|done].
    destruct (ok r) eqn:Hok; [|done].
    destruct (truthy_or_null (sessionId (ui w))); [done|].
    split; [reflexivity|]. by exists i, r, data.
  - intros Ht.
    assert (sessionId (ui w') = sessionId (ui w)) as Hw'.
    { by apply session_step_kept with e. }
    rewrite <- Hw'. apply session_kept with evs'; auto.
    + by eapply single_flight_step.
    + by rewrite Hw'.
Qed.

(** *** The loading flag and the storage *)

(** The guard of [handleSend] and the [disabled] attributes, for a render
    whose loading flag is set. *)
Lemma loading_render_is_inert (c : State) (mt : option string) (w : World) :
  isLoading c = true ->
  call_handleSend c mt w = w /\
  input_disabled c = true /\ voice_button_disabled c = true /\
  send_button_disabled c = true.
Proof.
  intros Hl. split; [apply call_handleSend_rejected; auto|].
  unfold input_disabled, voice_button_disabled, send_button_disabled.
  by rewrite Hl.
Qed.

(** Without speech results at most one fetch is in flight. *)
Lemma typed_sends_are_single_flight (storage : gmap string string)
    (evs : list Event) (w : World) :
  run (mount storage) evs = Some w ->
  along typed_only (mount storage) evs = true ->
  length (pending w) <= 1.
Proof.
  intros Hrun Hal.
  destruct (single_flight_run _ _ _ Hrun Hal) as [[-> _] | (p & -> & _)];
    simpl; lia.
Qed.

(** No step of the component writes the storage, and mounting does not
    read it. *)
Lemma localStorage_never_written (storage : gmap string string) (w : World) :
  reachable storage w -> localStorage w = storage.
Proof.
  apply (reachable_invariant (fun w => localStorage w = storage));
    [reflexivity|].
  intros v e v' IH Hstep. rewrite <- IH.
  destruct (step_cases _ _ _ Hstep)
    as [H | [(text & _ & _ & H) | [(text & _ & H) | (i & o & p & _ & H)]]].
  - by destruct H as (_ & _ & _ & _ & _ & ?).
  - by destruct H as (_ & _ & _ & _ & _ & _ & _ & ?).
  - by destruct H as (_ & _ & _ & _ & _ & _ & _ & ?).
  - by destruct H as (_ & _ & _ & _ & ?).
Qed.

Lemma mount_never_reads_storage (storage : gmap string string) :
  ui (mount storage) = ui (mount ∅) /\ sessionId (ui (mount storage)) = None.
Proof. unfold mount. by destruct SpeechRecognition. Qed.

(** ** Further properties of the chat flow *)

(** *** The conversation only grows *)

(** X1. The conversation is append-only: whatever happens to the page, the
    messages it held before are still there, unchanged and in the same
    order, at the front of the list; the same holds for the requests it has
    issued. *)
Theorem conversation_is_append_only (w w' : World) (evs : list Event) :
  run w evs = Some w' ->
  messages (ui w) `prefix_of` messages (ui w') /\
  requests w `prefix_of` requests w'.
Proof.
  revert w. induction evs as [|e evs IH]; intros w; simpl.
  - intros [= <-]. done.
  - destruct (step w e) as [v|] eqn:Hstep; [|discriminate].
    intros Hrun. destruct (IH _ Hrun) as [IHm IHr].
    destruct (step_messages _ _ _ Hstep)
      as [[Hm Hr] | [(text & c & _ & Hm & Hr) | (m & _ & Hm & Hr)]];
      rewrite Hm in IHm; rewrite Hr in IHr; split; try done;
      try (etrans; [|exact IHm]; by apply prefix_app_r);
      try (etrans; [|exact IHr]; by apply prefix_app_r).
Qed.

(** X2. In every page the component can get to, with or without requests
    overlapping, each request issued has brought one user message, and one
    assistant message unless it is still in flight: messages and fetches in
    flight together are twice the requests. *)
Theorem every_request_is_answered_once (storage : gmap string string)
    (w : World) :
  reachable storage w ->
  length (messages (ui w)) + length (pending w) = 2 * length (requests w).
Proof.
  apply (reachable_invariant
           (fun w => length (messages (ui w)) + length (pending w) =
                     2 * length (requests w))).
  - unfold mount. by destruct SpeechRecognition.
  - intros v e v' IH Hstep.
    destruct (step_cases _ _ _ Hstep)
      as [H | [(text & _ & _ & H) | [(text & _ & H) | (i & o & p & _ & H)]]].
    + destruct H as (-> & _ & _ & -> & -> & _). exact IH.
    + destruct H as (_ & _ & -> & _ & _ & -> & -> & _).
      rewrite !length_app. simpl. lia.
    + destruct H as (_ & _ & -> & _ & _ & -> & -> & _).
      rewrite !length_app. simpl. lia.
    + destruct H as (Hi & -> & -> & -> & _).
      destruct (handleSend_settle_appends (closure p) o (ui v))
        as (m & _ & -> & _).
      rewrite length_app, length_delete by eauto. simpl.
      apply lookup_lt_Some in Hi. lia.
Qed.

(** *** The loading flag *)

Lemma loading_means_in_flight (storage : gmap string string) (w : World) :
  reachable storage w -> isLoading (ui w) = true -> pending w <> [].
Proof.
  apply (reachable_invariant
           (fun w => isLoading (ui w) = true -> pending w <> [])).
  - unfold mount. by destruct SpeechRecognition.
  - intros v e v' IH Hstep.
    destruct (step_cases _ _ _ Hstep)
      as [H | [(text & _ & _ & H) | [(text & _ & H) | (i & o & p & _ & H)]]].
    + destruct H as (_ & -> & _ & -> & _). exact IH.
    + destruct H as (_ & _ & _ & _ & _ & -> & _). intros _.
      by destruct (pending v).
    + destruct H as (_ & _ & _ & _ & _ & -> & _). intros _.
      by destruct (pending v).
    + destruct H as (_ & -> & _).
      destruct (handleSend_settle_appends (closure p) o (ui v))
        as (m & _ & _ & -> & _).
      discriminate.
Qed.

(** X3. The loading flag is never set without a request in flight: in every
    page the component can get to, if [isLoading] is true (spinner shown,
    controls disabled) then some fetch has not settled yet. *)
Theorem loading_only_while_in_flight (storage : gmap string string)
    (w : World) :
  reachable storage w -> isLoading (ui w) = true -> 0 < length (pending w).
Proof.
  intros Hr Hl. pose proof (loading_means_in_flight _ _ Hr Hl).
  destruct (pending w); [done | simpl; lia].
Qed.

Lemma settle_all (os : list FetchOutcome) (w : World) :
  length os = length (pending w) ->
  exists w', run w (fetch_settled 0 <$> os) = Some w' /\
    pending w' = [] /\
    length (messages (ui w')) = length (messages (ui w)) + length os /\
    requests w' = requests w /\
    (os <> [] -> isLoading (ui w') = false).
Proof.
  revert w. induction os as [|o os IH]; intros w Hlen; simpl in *.
  - exists w. destruct (pending w); [|discriminate]. repeat split; [lia|done].
  - destruct (pending w) as [|p l] eqn:Hp; [discriminate|].
    simpl. set (v := mkWorld _ _ _ _ _).
    destruct (IH v) as (w' & Hrun & Hp' & Hm & Hrq & Hl).
    { simpl in *. lia. }
    exists w'. split; [exact Hrun|]. split; [exact Hp'|].
    destruct (handleSend_settle_appends (closure p) o (ui w))
      as (m & _ & Hms & Hld & _).
    split; [|split; [exact Hrq|]].
    + rewrite Hm. subst v. cbn [ui]. rewrite Hms, length_app. simpl. lia.
    + intros _. destruct os as [|o' os'].
      * simpl in Hrun. injection Hrun as <-. exact Hld.
      * by apply Hl.
Qed.

(** X4. The page cannot stay stuck in the loading state once the network
    has answered: from any page the component can get to, when every fetch
    in flight settles, with whatever outcomes, the component ends with
    nothing in flight, the loading flag cleared, the text input and the
    voice button enabled again, one more message per settled fetch and no
    further request. *)
Theorem loading_ends_when_fetches_settle (storage : gmap string string)
    (w : World) (os : list FetchOutcome) :
  reachable storage w ->
  length os = length (pending w) ->
  exists w', run w (fetch_settled 0 <$> os) = Some w' /\
    pending w' = [] /\
    isLoading (ui w') = false /\
    input_disabled (ui w') = false /\
    voice_button_disabled (ui w') = false /\
    length (messages (ui w')) = length (messages (ui w)) + length os /\
    requests w' = requests w.
Proof.
  intros Hr Hlen.
  destruct (settle_all os w Hlen) as (w' & Hrun & Hp & Hm & Hrq & Hl).
  assert (isLoading (ui w') = false) as Hld.
  { destruct os as [|o os]; [|by apply Hl].
    simpl in Hrun. injection Hrun as <-.
    destruct (isLoading (ui w)) eqn:E; [|done].
    by destruct (loading_means_in_flight _ _ Hr E). }
  exists w'. unfold input_disabled, voice_button_disabled.
  by repeat split.
Qed.

(** X5. While no speech result arrives, the loading flag tells exactly
    whether a request is in flight, and there is never more than one: the
    flag is true when one fetch is pending and false when none is. *)
Theorem typed_sends_one_at_a_time (storage : gmap string string)
    (evs : list Event) (w : World) :
  run (mount storage) evs = Some w ->
  along typed_only (mount storage) evs = true ->
  length (pending w) = (if isLoading (ui w) then 1 else 0).
Proof.
  intros Hrun Hal.
  by destruct (single_flight_run _ _ _ Hrun Hal)
    as [[-> ->] | (p & -> & -> & _)].
Qed.

(** *** The controls *)

(** X6. A click on the send button always sends: the button is enabled only
    when the trimmed input is not empty and nothing is loading, so the
    click appends the user message, issues one request carrying the trimmed
    input and the current session identifier, empties the input and sets
    the loading flag, which disables the button. *)
Theorem send_button_click_always_sends (w w' : World) :
  step w send_onClick = Some w' ->
  trim (input (ui w)) <> "" /\
  requests w' =
    requests w ++ [chat_request (trim (input (ui w))) (sessionId (ui w))] /\
  messages (ui w') =
    messages (ui w) ++ [mkMessage "user" (trim (input (ui w))) None] /\
  input (ui w') = "" /\
  isLoading (ui w') = true /\
  send_button_disabled (ui w') = true.
Proof.
  simpl. unfold send_button_disabled.
  destruct (isLoading (ui w)) eqn:Hl; [discriminate|].
  destruct (truthy (trim (input (ui w)))) eqn:Ht; [|discriminate].
  simpl. intros [= <-].
  rewrite (call_handleSend_accepted (ui w) None w Ht Hl). simpl.
  split; [by apply truthy_true|]. done.
Qed.

(** X7. A speech result takes over the input: whatever the user had typed
    is gone (the input is empty afterwards) and the listening indicator is
    off; a transcript that is not empty is sent as it is, without trimming,
    as a user message and a request with [session_id] null, in whatever
    state the page is; an empty transcript sends nothing. *)
Theorem speech_result_takes_over_input (w w' : World) (transcript : string) :
  step w (recognition_onresult transcript) = Some w' ->
  input (ui w') = "" /\
  isListening (ui w') = false /\
  messages (ui w') =
    messages (ui w) ++
      (if truthy transcript then [mkMessage "user" transcript None] else []) /\
  requests w' =
    requests w ++
      (if truthy transcript then [chat_request transcript None] else []).
Proof.
  simpl. destruct (engine w); [|discriminate]. intros [= <-].
  unfold onresult.
  set (v := update_ui (setIsListening false)
                      (update_ui (setInput transcript) w)).
  destruct transcript as [|a t].
  - rewrite (call_handleSend_rejected firstRender (Some "") v) by (by left).
    simpl. by rewrite !app_nil_r.
  - by rewrite (call_handleSend_accepted firstRender (Some (String a t)) v).
Qed.

(** *** Voice input *)

Lemma step_outside_voice (w w' : World) (e : Event) :
  step w e = Some w' ->
  match e with
  | voice_onClick | recognition_onresult _ | recognition_onerror
  | recognition_onend => True
  | _ => recognition (ui w') = recognition (ui w) /\
         isListening (ui w') = isListening (ui w) /\
         engine w' = engine w
  end.
Proof.
  destruct e; simpl; try done.
  - destruct (input_disabled (ui w)); [discriminate|]. by intros [= <-].
  - destruct (input_disabled (ui w)); [discriminate|]. intros [= <-].
    by destruct (call_handleSend_cases (ui w) None w)
      as [[-> _] | (_ & _ & ->)].
  - destruct (send_button_disabled (ui w)); [discriminate|]. intros [= <-].
    by destruct (call_handleSend_cases (ui w) None w)
      as [[-> _] | (_ & _ & ->)].
  - destruct (pending w !! i) as [p|]; [|discriminate]. intros [= <-].
    cbn [ui engine].
    by destruct (handleSend_settle_appends (closure p) o (ui w))
      as (m & _ & _ & _ & _ & -> & ->).
Qed.

(** X8. In a browser without speech recognition the microphone button does
    nothing and no speech result can arrive, so the loading guard is never
    bypassed: in every page the component can get to, nothing is listening
    and the number of fetches in flight is one when the loading flag is set
    and zero when it is not. *)
Theorem without_speech_recognition_one_at_a_time
    (storage : gmap string string) (w : World) :
  SpeechRecognition = false ->
  reachable storage w ->
  recognition (ui w) = false /\ isListening (ui w) = false /\
  engine w = false /\
  length (pending w) = (if isLoading (ui w) then 1 else 0).
Proof.
  intros Hno Hr.
  assert (recognition (ui w) = false /\ isListening (ui w) = false /\
          engine w = false /\ single_flight w) as (? & ? & ? & HI).
  { revert w Hr. apply reachable_invariant.
    - unfold mount. rewrite Hno. repeat split. by left.
    - intros v e v' (Hrec & Hlis & Heng & HI) Hstep.
      assert (typed_only v e v' = true) as Hty.
      { destruct e; try done. simpl in Hstep. by rewrite Heng in Hstep. }
      pose proof (single_flight_step _ _ _ HI Hstep Hty) as HI'.
      pose proof (step_outside_voice _ _ _ Hstep) as Hv.
      destruct e; try (destruct Hv as (-> & -> & ->); done);
        simpl in Hstep; rewrite ?Heng in Hstep; try discriminate.
      destruct (voice_button_disabled (ui v)); [discriminate|].
      injection Hstep as <-. unfold handleVoiceInput. by rewrite Hrec. }
  repeat split; try done.
  by destruct HI as [[-> ->] | (p & -> & -> & _)].
Qed.

(** X9. The listening indicator is on only while the recognition engine is
    running, and the engine only ever runs in a browser that provides
    speech recognition, where the component holds the recognition object. *)
Theorem listening_only_while_engine_runs (storage : gmap string string)
    (w : World) :
  reachable storage w ->
  (isListening (ui w) = true -> engine w = true) /\
  (engine w = true -> SpeechRecognition = true) /\
  recognition (ui w) = SpeechRecognition.
Proof.
  apply (reachable_invariant
           (fun w => (isListening (ui w) = true -> engine w = true) /\
                     (engine w = true -> SpeechRecognition = true) /\
                     recognition (ui w) = SpeechRecognition)).
  - unfold mount. by destruct SpeechRecognition.
  - intros v e v' (Hlis & Heng & Hrec) Hstep.
    pose proof (step_outside_voice _ _ _ Hstep) as Hv.
    destruct e; try (destruct Hv as (-> & -> & ->); done);
      simpl in Hstep.
    + destruct (voice_button_disabled (ui v)); [discriminate|].
      injection Hstep as <-. unfold handleVoiceInput.
      destruct (recognition (ui v)) eqn:Hr; simpl;
        [|repeat split; auto; congruence].
      destruct (isListening (ui v)); simpl; repeat split; auto; congruence.
    + destruct (engine v) eqn:He; [|discriminate].
      injection Hstep as <-. unfold onresult.
      set (u := update_ui (setIsListening false)
                          (update_ui (setInput transcript) v)).
      destruct (call_handleSend_cases firstRender (Some transcript) u)
        as [[-> _] | (_ & _ & ->)];
        subst u; simpl; repeat split; auto; congruence.
    + destruct (engine v) eqn:He; [|discriminate].
      injection Hstep as <-. simpl; repeat split; auto; congruence.
    + destruct (engine v) eqn:He; [|discriminate].
      injection Hstep as <-. simpl; repeat split; auto; congruence.
Qed.

(** *** What the messages hold *)

Lemma handleSend_settle_image (c : State) (o : FetchOutcome) (s : State) :
  exists m, role m = "assistant" /\
    (forall u, imageUrl m = Some u -> u <> "") /\
    messages (handleSend_settle c o s) = messages s ++ [m].
Proof.
  unfold handleSend_settle, try_block.
  destruct o as [r|]; [destruct (ok r); [destruct (json r) as [data|]|]|];
    simpl; try (by exists errorMessage).
  exists (mkMessage "assistant" (response data) (or_undefined (image_url data))).
  split; [done|]. split; [|by destruct (truthy_or_null (sessionId c))].
  simpl. intros u. destruct (image_url data) as [| |v]; simpl; try done.
  destruct (truthy v) eqn:Hv; [|done]. intros [= <-]. by apply truthy_true.
Qed.

Lemma stored_images (storage : gmap string string) (w : World) :
  reachable storage w ->
  Forall (fun m => forall u, imageUrl m = Some u -> truthy u = true)
         (messages (ui w)).
Proof.
  apply (reachable_invariant
           (fun w => Forall (fun m => forall u, imageUrl m = Some u ->
                                                truthy u = true)
                            (messages (ui w)))).
  - unfold mount. destruct SpeechRecognition; constructor.
  - intros v e v' IH Hstep.
    destruct (step_cases _ _ _ Hstep)
      as [H | [(text & _ & _ & H) | [(text & _ & H) | (i & o & p & _ & H)]]].
    + destruct H as (-> & _). exact IH.
    + destruct H as (_ & _ & -> & _).
      apply Forall_app. split; [exact IH|]. by apply Forall_singleton.
    + destruct H as (_ & _ & -> & _).
      apply Forall_app. split; [exact IH|]. by apply Forall_singleton.
    + destruct H as (_ & -> & _).
      destruct (handleSend_settle_image (closure p) o (ui v))
        as (m & _ & Hu & ->).
      apply Forall_app. split; [exact IH|]. apply Forall_singleton.
      intros u Hmu. apply truthy_true. eauto.
Qed.

(** X10. In every page the component can get to, a message that has an
    image URL is an assistant message and the URL is not empty: user
    messages and the apology never carry an image, and the truthiness test
    the render puts before the image never hides a stored URL. *)
Theorem images_only_on_assistant_messages (storage : gmap string string)
    (w : World) :
  reachable storage w ->
  Forall (fun m => forall u, imageUrl m = Some u ->
                             role m = "assistant" /\ truthy u = true)
         (messages (ui w)).
Proof.
  apply (reachable_invariant
           (fun w => Forall (fun m => forall u, imageUrl m = Some u ->
                                role m = "assistant" /\ truthy u = true)
                            (messages (ui w)))).
  - unfold mount. destruct SpeechRecognition; constructor.
  - intros v e v' IH Hstep.
    destruct (step_cases _ _ _ Hstep)
      as [H | [(text & _ & _ & H) | [(text & _ & H) | (i & o & p & _ & H)]]].
    + destruct H as (-> & _). exact IH.
    + destruct H as (_ & _ & -> & _).
      apply Forall_app. split; [exact IH|]. by apply Forall_singleton.
    + destruct H as (_ & _ & -> & _).
      apply Forall_app. split; [exact IH|]. by apply Forall_singleton.
    + destruct H as (_ & -> & _).
      destruct (handleSend_settle_image (closure p) o (ui v))
        as (m & Hm & Hu & ->).
      apply Forall_app. split; [exact IH|]. apply Forall_singleton.
      intros u Hmu. split; [exact Hm|]. apply truthy_true. eauto.
Qed.

Lemma user_turns_app (s : State) (l l' : list Message) :
  messages s = l ++ l' ->
  user_turns s =
    filter (fun m => role m = "user") l ++
    filter (fun m => role m = "user") l'.
Proof. unfold user_turns. intros ->. apply filter_app. Qed.

(** X11. Requests and user messages correspond one to one, in order: in
    every page the component can get to, the [message] fields of the
    requests issued so far are exactly the contents of the user messages of
    the conversation, and none of them is empty. *)
Theorem requests_carry_the_user_messages (storage : gmap string string)
    (w : World) :
  reachable storage w ->
  map (fun r => field "message" (body r)) (requests w) =
    map (fun m => Some (JSON_string (content m))) (user_turns (ui w)) /\
  Forall (fun m => content m <> "") (user_turns (ui w)).
Proof.
  apply (reachable_invariant
           (fun w =>
              map (fun r => field "message" (body r)) (requests w) =
                map (fun m => Some (JSON_string (content m)))
                    (user_turns (ui w)) /\
              Forall (fun m => content m <> "") (user_turns (ui w)))).
  - unfold mount. by destruct SpeechRecognition.
  - intros v e v' [IHr IHc] Hstep.
    destruct (step_messages _ _ _ Hstep)
      as [[Hm ->] | [(text & c & Ht & Hm & ->) | (m & Hrole & Hm & ->)]].
    + unfold user_turns. rewrite Hm. by split.
    + rewrite (user_turns_app _ _ _ Hm). fold (user_turns (ui v)).
      rewrite !map_app, IHr. split; [reflexivity|].
      apply Forall_app. split; [exact IHc|]. by apply Forall_singleton.
    + rewrite (user_turns_app _ _ _ Hm). fold (user_turns (ui v)).
      rewrite filter_cons_False by (rewrite Hrole; discriminate).
      rewrite filter_nil, app_nil_r. by split.
Qed.

(** *** Trimmed text *)

Lemma drop_white_space_head (l : list ascii) (c : ascii) :
  head (drop_white_space l) = Some c -> is_white_space c = false.
Proof.
  induction l as [|a l IH]; simpl; [discriminate|].
  destruct (is_white_space a) eqn:Ha; [exact IH|].
  simpl. by intros [= <-].
Qed.

Lemma drop_white_space_last (l : list ascii) (c : ascii) :
  last (drop_white_space l) = Some c -> last l = Some c.
Proof.
  induction l as [|a l IH]; simpl; [discriminate|].
  destruct (is_white_space a) eqn:Ha; [|done].
  intros H. specialize (IH H). by destruct l.
Qed.

Lemma last_rev (l : list ascii) : last (rev l) = head l.
Proof. destruct l as [|a l]; simpl; [done|]. apply last_snoc. Qed.

Lemma head_rev (l : list ascii) : head (rev l) = last l.
Proof. by rewrite <- (last_rev (rev l)), rev_involutive. Qed.

Lemma trim_trimmed (s : string) : trim s <> "" -> trimmed (trim s).
Proof.
  intros Hne. split; [exact Hne|]. unfold trim.
  rewrite list_ascii_of_string_of_list_ascii.
  split; intros c.
  - rewrite head_rev. intros H%drop_white_space_last.
    rewrite last_rev in H. by apply drop_white_space_head in H.
  - rewrite last_rev. apply drop_white_space_head.
Qed.

(** X12. What the user types is sent trimmed: while no speech result
    arrives, every user message of the conversation is a non-empty text
    that neither starts nor ends with white space. *)
Theorem typed_messages_are_trimmed (storage : gmap string string)
    (evs : list Event) (w : World) :
  run (mount storage) evs = Some w ->
  along typed_only (mount storage) evs = true ->
  Forall (fun m => trimmed (content m)) (user_turns (ui w)).
Proof.
  apply (run_along_invariant typed_only
           (fun w => Forall (fun m => trimmed (content m))
                            (user_turns (ui w)))).
  - intros v e v' IH Hstep Hty.
    destruct (step_cases _ _ _ Hstep)
      as [H | [(text & _ & -> & H) | [(text & -> & _) | (i & o & p & _ & H)]]].
    + destruct H as (Hm & _). unfold user_turns. by rewrite Hm.
    + destruct H as (Ht & _ & Hm & _).
      rewrite (user_turns_app _ _ _ Hm). fold (user_turns (ui v)).
      apply Forall_app. split; [exact IH|]. apply Forall_singleton.
      by apply trim_trimmed.
    + discriminate.
    + destruct H as (_ & Hui & _).
      destruct (handleSend_settle_appends (closure p) o (ui v))
        as (m & Hrole & Hm & _).
      rewrite <- Hui in Hm.
      rewrite (user_turns_app _ _ _ Hm). fold (user_turns (ui v)).
      rewrite filter_cons_False by (rewrite Hrole; discriminate).
      by rewrite filter_nil, app_nil_r.
  - unfold mount. destruct SpeechRecognition; constructor.
Qed.

(** *** The rendered page *)

(** The rows of the conversation, for a query that does not look at
    [key]. *)
Lemma collect_bubbles {A : Type} (f : Node -> option A) (l : list Message) :
  (forall i j m, collect f (bubble i m) = collect f (bubble j m)) ->
  flat_map (collect f) (imap bubble l) =
    flat_map (fun m => collect f (bubble 0 m)) l.
Proof.
  intros Hkey.
  assert (forall (g : nat -> nat) k,
            flat_map (collect f) (imap (fun i => bubble (g i)) l) =
            flat_map (fun m => collect f (bubble k m)) l) as H.
  { induction l as [|m l IH]; intros g k; [reflexivity|].
    rewrite imap_cons. cbn [flat_map].
    f_equal; [apply Hkey | exact (IH (g ∘ S) k)]. }
  exact (H id 0).
Qed.

Lemma collect_conversation_rows {A : Type} (f : Node -> option A) (s : State) :
  (forall i j m, collect f (bubble i m) = collect f (bubble j m)) ->
  flat_map (collect f) (conversation_rows s) =
    flat_map (collect f) (welcome s) ++
    flat_map (fun m => collect f (bubble 0 m)) (messages s) ++
    flat_map (collect f) (spinner s) ++
    collect f (element "div" [("ref", ref_prop "messagesEndRef")] []).
Proof.
  intros Hkey. unfold conversation_rows.
  rewrite !flat_map_app, (collect_bubbles f _ Hkey).
  cbn [flat_map]. by rewrite app_nil_r.
Qed.

(** The image a row shows, if any. *)
Lemma collect_image_src_bubble (i : nat) (m : Message) :
  collect image_src (bubble i m) =
    match imageUrl m with
    | Some u => if truthy u then [u] else []
    | None => []
    end.
Proof.
  unfold bubble, bubble_image.
  destruct (imageUrl m) as [u|]; [destruct (truthy u)|]; reflexivity.
Qed.

Lemma collect_image_src_render (s : State) :
  collect image_src (render s) =
    flat_map (fun m => match imageUrl m with
                       | Some u => if truthy u then [u] else []
                       | None => []
                       end) (messages s).
Proof.
  unfold render, header, conversation, input_bar.
  cbn -[conversation_rows session_label].
  rewrite collect_conversation_rows
    by (intros; by rewrite !collect_image_src_bubble).
  unfold session_label, welcome, spinner.
  destruct (sessionId s) as [sid|]; [destruct (truthy sid)|];
    destruct (messages s) as [|m l] eqn:Hm; destruct (isLoading s);
    destruct (isListening s); cbn -[bubble]; rewrite ?app_nil_r;
    try reflexivity;
    (rewrite collect_image_src_bubble; f_equal;
     apply flat_map_ext; intros; apply collect_image_src_bubble).
Qed.

Lemma collect_bubble_text_bubble (i : nat) (m : Message) :
  collect bubble_text (bubble i m) = [content m].
Proof.
  unfold bubble, bubble_image.
  destruct (imageUrl m) as [u|]; [destruct (truthy u)|]; reflexivity.
Qed.

Lemma collect_span_text_bubble (i : nat) (m : Message) :
  collect span_text (bubble i m) = [].
Proof.
  unfold bubble, bubble_image.
  destruct (imageUrl m) as [u|]; [destruct (truthy u)|]; reflexivity.
Qed.

Lemma collect_span_text_render (s : State) :
  collect span_text (render s) =
    match sessionId s with
    | Some sid =>
        if truthy sid
        then ["Session: " +:+ slice_to 8 sid +:+ "..."] else []
    | None => []
    end.
Proof.
  unfold render, header, conversation, input_bar.
  cbn -[conversation_rows session_label].
  rewrite collect_conversation_rows
    by (intros; by rewrite !collect_span_text_bubble).
  assert (forall l : list Message,
            flat_map (fun m => collect span_text (bubble 0 m)) l = [])
    as Hrows.
  { induction l as [|m l IH]; [reflexivity|].
    cbn [flat_map]. by rewrite collect_span_text_bubble, IH. }
  rewrite Hrows. unfold session_label, welcome, spinner.
  destruct (sessionId s) as [sid|]; [destruct (truthy sid)|];
    destruct (messages s) as [|m l]; destruct (isLoading s);
    destruct (isListening s); reflexivity.
Qed.

Lemma collect_welcome_panel_bubble (i : nat) (m : Message) :
  collect welcome_panel (bubble i m) = [].
Proof.
  unfold bubble, bubble_image.
  destruct (String.eqb (role m) "user");
    (destruct (imageUrl m) as [u|]; [destruct (truthy u)|]); reflexivity.
Qed.

Lemma collect_welcome_panel_render (s : State) :
  collect welcome_panel (render s) =
    match messages s with
    | [] => [()]
    | _ :: _ => []
    end.
Proof.
  unfold render, header, conversation, input_bar.
  cbn -[conversation_rows session_label].
  rewrite collect_conversation_rows
    by (intros; by rewrite !collect_welcome_panel_bubble).
  assert (forall l : list Message,
            flat_map (fun m => collect welcome_panel (bubble 0 m)) l = [])
    as Hrows.
  { induction l as [|m l IH]; [reflexivity|].
    cbn [flat_map]. by rewrite collect_welcome_panel_bubble, IH. }
  rewrite Hrows. unfold session_label, welcome, spinner.
  destruct (sessionId s) as [sid|]; [destruct (truthy sid)|];
    destruct (messages s) as [|m l]; destruct (isLoading s);
    destruct (isListening s); reflexivity.
Qed.

(** X13. The page shows every message and nothing else in its bubbles: the
    texts of the bubble paragraphs, read in document order, are the
    contents of the messages in order, whatever the state. *)
Theorem page_shows_every_message (s : State) :
  collect bubble_text (render s) = map content (messages s).
Proof.
  unfold render, header, conversation, input_bar.
  cbn -[conversation_rows session_label].
  rewrite collect_conversation_rows
    by (intros; by rewrite !collect_bubble_text_bubble).
  assert (forall l : list Message,
            flat_map (fun m => collect bubble_text (bubble 0 m)) l =
            map content l) as Hrows.
  { induction l as [|m l IH]; [reflexivity|].
    cbn [flat_map map]. by rewrite collect_bubble_text_bubble, IH. }
  rewrite Hrows. unfold session_label, welcome, spinner.
  destruct (sessionId s) as [sid|]; [destruct (truthy sid)|];
    destruct (messages s) as [|m l]; destruct (isLoading s);
    destruct (isListening s); cbn; by rewrite ?app_nil_r.
Qed.

(** X14. In every page the component can get to, the images on the page are
    exactly the image URLs of the messages, in order: each message with an
    [imageUrl] shows it and no other image is rendered. *)
Theorem page_shows_every_image (storage : gmap string string) (w : World) :
  reachable storage w ->
  collect image_src (render (ui w)) = omap imageUrl (messages (ui w)).
Proof.
  intros Hr. rewrite collect_image_src_render.
  pose proof (stored_images _ _ Hr) as Himg.
  induction Himg as [|m l Hm _ IH]; [reflexivity|].
  cbn [flat_map]. rewrite IH. simpl.
  destruct (imageUrl m) as [u|] eqn:Hu; [|reflexivity].
  rewrite (Hm u eq_refl). reflexivity.
Qed.

Lemma conversation_empty_iff (storage : gmap string string) (w : World) :
  reachable storage w ->
  (requests w = [] -> messages (ui w) = [] /\ pending w = []) /\
  (messages (ui w) = [] -> requests w = []).
Proof.
  apply (reachable_invariant
           (fun w => (requests w = [] ->
                      messages (ui w) = [] /\ pending w = []) /\
                     (messages (ui w) = [] -> requests w = []))).
  - unfold mount. by destruct SpeechRecognition.
  - intros v e v' [IH1 IH2] Hstep.
    destruct (step_cases _ _ _ Hstep)
      as [H | [(text & _ & _ & H) | [(text & _ & H) | (i & o & p & _ & H)]]].
    + destruct H as (-> & _ & _ & -> & -> & _). by split.
    + destruct H as (_ & _ & -> & _ & _ & _ & -> & _).
      split; intros H; by apply app_nil in H as [_ ?].
    + destruct H as (_ & _ & -> & _ & _ & _ & -> & _).
      split; intros H; by apply app_nil in H as [_ ?].
    + destruct H as (Hi & -> & _ & -> & _).
      destruct (handleSend_settle_appends (closure p) o (ui v))
        as (m & _ & -> & _).
      split; intros H.
      * destruct (IH1 H) as [_ Hp]. by rewrite Hp in Hi.
      * by apply app_nil in H as [_ ?].
Qed.

(** X15. In every page the component can get to, the welcome panel is
    displayed exactly as long as no request has been issued: it is there
    once when nothing was sent yet and gone from the first accepted turn
    on. *)
Theorem welcome_until_first_turn (storage : gmap string string) (w : World) :
  reachable storage w ->
  collect welcome_panel (render (ui w)) =
    match requests w with
    | [] => [()]
    | _ :: _ => []
    end.
Proof.
  intros Hr. rewrite collect_welcome_panel_render.
  destruct (conversation_empty_iff _ _ Hr) as [H1 H2].
  destruct (requests w) as [|r l].
  - by destruct (H1 eq_refl) as [-> _].
  - destruct (messages (ui w)); [by specialize (H2 eq_refl)|reflexivity].
Qed.

Lemma slice_to_length (n : nat) (s : string) :
  String.length (slice_to n s) <= n.
Proof.
  unfold slice_to. revert s.
  induction n as [|n IH]; intros [|a s]; simpl; try lia.
  specialize (IH s). lia.
Qed.

(** X16. The session label of the header shows "Session: ", at most the
    first eight characters of the identifier and "...".  While no speech
    result arrives, once the label is displayed it stays the same for the
    rest of the run. *)
Theorem session_label_is_stable (storage : gmap string string)
    (evs evs' : list Event) (w w' : World) (label : string) :
  run (mount storage) evs = Some w ->
  run w evs' = Some w' ->
  along typed_only (mount storage) (evs ++ evs') = true ->
  collect span_text (render (ui w)) = [label] ->
  collect span_text (render (ui w')) = [label] /\
  exists sid, sessionId (ui w) = Some sid /\
    label = "Session: " +:+ slice_to 8 sid +:+ "..." /\
    String.length (slice_to 8 sid) <= 8.
Proof.
  intros Hrun Hrun' Hal Hlabel.
  rewrite (along_app _ _ _ _ _ Hrun) in Hal.
  apply andb_true_iff in Hal as [Hal Hal'].
  pose proof (single_flight_run _ _ _ Hrun Hal) as HI.
  rewrite collect_span_text_render in Hlabel |- *.
  destruct (sessionId (ui w)) as [sid|] eqn:Hsid; [|discriminate].
  destruct (truthy sid) eqn:Ht; [|discriminate].
  injection Hlabel as <-.
  rewrite (session_kept w w' evs' HI) by (by rewrite ?Hsid).
  rewrite Hsid, Ht. split; [reflexivity|].
  exists sid. split; [reflexivity|]. split; [reflexivity|].
  apply slice_to_length.
Qed.

(** X17. An ok response whose body cannot be parsed is treated like a
    failed request: the apology is appended, the loading flag is cleared,
    and the session identifier, the input and the requests issued stay as
    they were. *)
Theorem unparsable_body_is_a_failure (w w' : World) (i : nat) (r : Response) :
  step w (fetch_settled i (fulfilled r)) = Some w' ->
  json r = None ->
  messages (ui w') = messages (ui w) ++ [errorMessage] /\
  isLoading (ui w') = false /\
  sessionId (ui w') = sessionId (ui w) /\
  input (ui w') = input (ui w) /\
  requests w' = requests w.
Proof.
  intros Hstep Hj. apply step_fetch_settled in Hstep as (p & _ & ->).
  cbn [ui requests]. unfold handleSend_settle, try_block. rewrite Hj.
  by destruct (ok r).
Qed.

End ChatInterface.

(** ** The properties at work on sample conversations *)

Lemma handleSend_blank_input_changes_nothing_witness :
  blank "  " /\
  call_handleSend None (setInput "  " firstRender) None (mount true ∅) =
    mount true ∅.
Proof.
  split; [reflexivity|].
  apply (handleSend_blank_input_changes_nothing
           None (setInput "  " firstRender) (mount true ∅)).
  reflexivity.
Defined.

Lemma assistant_image_iff_truthy_witness :
  ok (mkResponse true 200
        (Some (mkChatResponse "A latte." (Some "s1") (value "/img/latte.png"))))
    = true /\
  exists m,
    messages
      (handleSend_settle firstRender
         (fulfilled
            (mkResponse true 200
               (Some (mkChatResponse "A latte." (Some "s1")
                                     (value "/img/latte.png")))))
         firstRender) = [m] /\
    imageUrl m = Some "/img/latte.png".
Proof.
  split; [reflexivity|].
  destruct (assistant_image_iff_truthy firstRender
              (mkResponse true 200
                 (Some (mkChatResponse "A latte." (Some "s1")
                                       (value "/img/latte.png"))))
              (mkChatResponse "A latte." (Some "s1") (value "/img/latte.png"))
              firstRender eq_refl eq_refl)
    as (m & Hm & _ & _ & Himg & _).
  exists m. split; [exact Hm|].
  apply Himg. split; reflexivity.
Defined.

Lemma failed_send_apologises_once_witness :
  step None (after None false [input_onChange "hi"; input_onKeyDown_Enter])
       (fetch_settled 0 (fulfilled (mkResponse false 500 None))) =
    Some (after None false
            [input_onChange "hi"; input_onKeyDown_Enter;
             fetch_settled 0 (fulfilled (mkResponse false 500 None))]) /\
  failed (fulfilled (mkResponse false 500 None)) = true /\
  map content
      (messages
         (ui (after None false
                [input_onChange "hi"; input_onKeyDown_Enter;
                 fetch_settled 0 (fulfilled (mkResponse false 500 None))]))) =
    ["hi"; "Sorry, I encountered an error. Please try again."].
Proof.
  split; [reflexivity|]. split; [reflexivity|].
  destruct (failed_send_apologises_once None
              (after None false [input_onChange "hi"; input_onKeyDown_Enter])
              (after None false
                 [input_onChange "hi"; input_onKeyDown_Enter;
                  fetch_settled 0 (fulfilled (mkResponse false 500 None))])
              0 (fulfilled (mkResponse false 500 None)) eq_refl eq_refl)
    as (Hm & _).
  rewrite Hm. reflexivity.
Defined.

Lemma messages_have_user_or_assistant_role_witness :
  reachable None true ∅
    (after None true
       [input_onChange "hi"; input_onKeyDown_Enter;
        fetch_settled 0 (reply "Hello!" (Some "s1"))]) /\
  Forall (fun m => role m = "user" \/ role m = "assistant")
    (messages
       (ui (after None true
              [input_onChange "hi"; input_onKeyDown_Enter;
               fetch_settled 0 (reply "Hello!" (Some "s1"))]))).
Proof.
  assert (reachable None true ∅
            (after None true
               [input_onChange "hi"; input_onKeyDown_Enter;
                fetch_settled 0 (reply "Hello!" (Some "s1"))])) as H.
  { exists [input_onChange "hi"; input_onKeyDown_Enter;
            fetch_settled 0 (reply "Hello!" (Some "s1"))].
    reflexivity. }
  split; [exact H|].
  exact (messages_have_user_or_assistant_role None true ∅ _ H).
Defined.

Lemma one_post_to_chat_endpoint_per_turn_witness :
  reachable (Some "https://api.example") true ∅
    (after (Some "https://api.example") true
       (first_turn ++ [input_onChange " a latte "])) /\
  step (Some "https://api.example")
       (after (Some "https://api.example") true
          (first_turn ++ [input_onChange " a latte "]))
       send_onClick =
    Some (after (Some "https://api.example") true
            (first_turn ++ [input_onChange " a latte "; send_onClick])) /\
  submitted_text
    (after (Some "https://api.example") true
       (first_turn ++ [input_onChange " a latte "]))
    send_onClick = Some "a latte" /\
  truthy "a latte" = true /\
  isLoading
    (ui (after (Some "https://api.example") true
           (first_turn ++ [input_onChange " a latte "]))) = false /\
  exists r,
    requests
      (after (Some "https://api.example") true
         (first_turn ++ [input_onChange " a latte "; send_onClick])) =
      requests
        (after (Some "https://api.example") true
           (first_turn ++ [input_onChange " a latte "])) ++ [r] /\
    method r = "POST" /\
    url r = "https://api.example/api/chat/" /\
    field "message" (body r) = Some (JSON_string "a latte") /\
    user_turns
      (ui (after (Some "https://api.example") true
             (first_turn ++ [input_onChange " a latte "; send_onClick]))) =
      user_turns
        (ui (after (Some "https://api.example") true
               (first_turn ++ [input_onChange " a latte "]))) ++
      [mkMessage "user" "a latte" None].
Proof.
  assert (reachable (Some "https://api.example") true ∅
            (after (Some "https://api.example") true
               (first_turn ++ [input_onChange " a latte "]))) as H.
  { exists (first_turn ++ [input_onChange " a latte "]). reflexivity. }
  split; [exact H|]. split; [reflexivity|]. split; [reflexivity|].
  split; [reflexivity|]. split; [reflexivity|].
  exact (proj1 (one_post_to_chat_endpoint_per_turn
                  (Some "https://api.example") true ∅ _ _ send_onClick
                  H eq_refl)
               "a latte" eq_refl eq_refl eq_refl).
Defined.

Lemma sequential_sends_alternate_witness :
  run None (mount true ∅)
      [input_onChange "hi"; input_onKeyDown_Enter;
       fetch_settled 0 (reply "Hello!" (Some "s1"));
       voice_onClick; recognition_onresult "a flat white";
       fetch_settled 0 rejected] =
    Some (after None true
            [input_onChange "hi"; input_onKeyDown_Enter;
             fetch_settled 0 (reply "Hello!" (Some "s1"));
             voice_onClick; recognition_onresult "a flat white";
             fetch_settled 0 rejected]) /\
  along None sequential (mount true ∅)
      [input_onChange "hi"; input_onKeyDown_Enter;
       fetch_settled 0 (reply "Hello!" (Some "s1"));
       voice_onClick; recognition_onresult "a flat white";
       fetch_settled 0 rejected] = true /\
  map role
      (messages
         (ui (after None true
                [input_onChange "hi"; input_onKeyDown_Enter;
                 fetch_settled 0 (reply "Hello!" (Some "s1"));
                 voice_onClick; recognition_onresult "a flat white";
                 fetch_settled 0 rejected]))) =
    ["user"; "assistant"; "user"; "assistant"].
Proof.
  split; [reflexivity|]. split; [reflexivity|].
  exact (proj2 (sequential_sends_alternate None true ∅
                  [input_onChange "hi"; input_onKeyDown_Enter;
                   fetch_settled 0 (reply "Hello!" (Some "s1"));
                   voice_onClick; recognition_onresult "a flat white";
                   fetch_settled 0 rejected]
                  _ eq_refl eq_refl eq_refl)).
Defined.

Lemma session_created_once_then_reused_witness :
  run None (mount false ∅)
      [input_onChange "hi"; input_onKeyDown_Enter;
       fetch_settled 0 (reply "Hello!" (Some "s1"));
       input_onChange "a latte"] =
    Some (after None false
            [input_onChange "hi"; input_onKeyDown_Enter;
             fetch_settled 0 (reply "Hello!" (Some "s1"));
             input_onChange "a latte"]) /\
  step None
       (after None false
          [input_onChange "hi"; input_onKeyDown_Enter;
           fetch_settled 0 (reply "Hello!" (Some "s1"));
           input_onChange "a latte"])
       send_onClick =
    Some (after None false
            [input_onChange "hi"; input_onKeyDown_Enter;
             fetch_settled 0 (reply "Hello!" (Some "s1"));
             input_onChange "a latte"; send_onClick]) /\
  run None
      (after None false
         [input_onChange "hi"; input_onKeyDown_Enter;
          fetch_settled 0 (reply "Hello!" (Some "s1"));
          input_onChange "a latte"; send_onClick])
      [fetch_settled 0 (reply "Coming up." (Some "s2"))] =
    Some (after None false
            [input_onChange "hi"; input_onKeyDown_Enter;
             fetch_settled 0 (reply "Hello!" (Some "s1"));
             input_onChange "a latte"; send_onClick;
             fetch_settled 0 (reply "Coming up." (Some "s2"))]) /\
  along None typed_only (mount false ∅)
      ([input_onChange "hi"; input_onKeyDown_Enter;
        fetch_settled 0 (reply "Hello!" (Some "s1"));
        input_onChange "a latte"] ++
       send_onClick :: [fetch_settled 0 (reply "Coming up." (Some "s2"))]) =
    true /\
  sessionId
    (ui (after None false
           [input_onChange "hi"; input_onKeyDown_Enter;
            fetch_settled 0 (reply "Hello!" (Some "s1"));
            input_onChange "a latte"; send_onClick;
            fetch_settled 0 (reply "Coming up." (Some "s2"))])) = Some "s1".
Proof.
  split; [reflexivity|]. split; [reflexivity|]. split; [reflexivity|].
  split; [reflexivity|].
  destruct (session_created_once_then_reused None false ∅
              [input_onChange "hi"; input_onKeyDown_Enter;
               fetch_settled 0 (reply "Hello!" (Some "s1"));
               input_onChange "a latte"]
              [fetch_settled 0 (reply "Coming up." (Some "s2"))]
              send_onClick _ _ _ eq_refl eq_refl eq_refl eq_refl)
    as (_ & _ & _ & _ & Hkept).
  exact (Hkept eq_refl).
Defined.

(** The guard on [setSessionId] is a truthiness test: an identifier that
    is the empty string is sent with the next turn and replaced by the next
    response. *)
Lemma session_overwritten_when_empty :
  run None (mount false ∅)
      [input_onChange "hi"; input_onKeyDown_Enter;
       fetch_settled 0 (reply "Hello!" (Some ""));
       input_onChange "a latte"; input_onKeyDown_Enter] =
    Some (after None false
            [input_onChange "hi"; input_onKeyDown_Enter;
             fetch_settled 0 (reply "Hello!" (Some ""));
             input_onChange "a latte"; input_onKeyDown_Enter]) /\
  sessionId
    (ui (after None false
           [input_onChange "hi"; input_onKeyDown_Enter;
            fetch_settled 0 (reply "Hello!" (Some ""));
            input_onChange "a latte"; input_onKeyDown_Enter])) = Some "" /\
  (exists w',
     step None
          (after None false
             [input_onChange "hi"; input_onKeyDown_Enter;
              fetch_settled 0 (reply "Hello!" (Some ""));
              input_onChange "a latte"; input_onKeyDown_Enter])
          (fetch_settled 0 (reply "Coming up." (Some "s2"))) = Some w' /\
     sessionId (ui w') = Some "s2") /\
  ~ (forall (w w' : World) (i : nat) (o : FetchOutcome),
       step None w (fetch_settled i o) = Some w' ->
       sessionId (ui w) <> None ->
       sessionId (ui w') = sessionId (ui w)).
Proof.
  split; [reflexivity|]. split; [reflexivity|]. split.
  - eexists. split; reflexivity.
  - intros H.
    specialize (H (after None false
                     [input_onChange "hi"; input_onKeyDown_Enter;
                      fetch_settled 0 (reply "Hello!" (Some ""));
                      input_onChange "a latte"; input_onKeyDown_Enter])
                  _ 0 (reply "Coming up." (Some "s2")) eq_refl).
    discriminate H. discriminate.
Qed.

(** C5 fails on the code.  The user starts voice input, then types a
    message and presses Enter; the speech result arrives while that request
    is in flight.  The [handleSend] the recognition calls is the one of the
    first render, whose [isLoading] is [false] for ever: it does not return
    early, and a second request starts before the first has completed. *)
Lemma second_request_while_first_in_flight :
  run None (mount true ∅)
      [voice_onClick; input_onChange "an espresso"; input_onKeyDown_Enter] =
    Some (after None true
            [voice_onClick; input_onChange "an espresso";
             input_onKeyDown_Enter]) /\
  isLoading
    (ui (after None true
           [voice_onClick; input_onChange "an espresso";
            input_onKeyDown_Enter])) = true /\
  length
    (pending (after None true
                [voice_onClick; input_onChange "an espresso";
                 input_onKeyDown_Enter])) = 1 /\
  run None (mount true ∅)
      [voice_onClick; input_onChange "an espresso"; input_onKeyDown_Enter;
       recognition_onresult "a flat white"] =
    Some (after None true
            [voice_onClick; input_onChange "an espresso";
             input_onKeyDown_Enter; recognition_onresult "a flat white"]) /\
  map body
    (request <$>
       pending (after None true
                  [voice_onClick; input_onChange "an espresso";
                   input_onKeyDown_Enter;
                   recognition_onresult "a flat white"])) =
    [[("message", JSON_string "an espresso"); ("session_id", JSON_null)];
     [("message", JSON_string "a flat white"); ("session_id", JSON_null)]].
Proof. repeat split. Qed.

(** C4 fails on the code.  The component never writes the storage and
    never reads it: after a page refresh the session identifier is [null]
    again, whatever the previous conversation received, and the next request
    goes out without it. *)
Lemma session_lost_on_reload :
  sessionId
    (ui (after None false
           [input_onChange "hi"; input_onKeyDown_Enter;
            fetch_settled 0 (reply "Hello!" (Some "s1"))])) = Some "s1" /\
  localStorage
    (after None false
       [input_onChange "hi"; input_onKeyDown_Enter;
        fetch_settled 0 (reply "Hello!" (Some "s1"))]) = ∅ /\
  sessionId
    (ui (reload false
           (after None false
              [input_onChange "hi"; input_onKeyDown_Enter;
               fetch_settled 0 (reply "Hello!" (Some "s1"))]))) = None /\
  (exists w,
     run None
         (reload false
            (after None false
               [input_onChange "hi"; input_onKeyDown_Enter;
                fetch_settled 0 (reply "Hello!" (Some "s1"))]))
         [input_onChange "a latte"; input_onKeyDown_Enter] = Some w /\
     map body (requests w) =
       [[("message", JSON_string "hi"); ("session_id", JSON_null)];
        [("message", JSON_string "a latte"); ("session_id", JSON_null)]]) /\
  sessionId
    (ui (mount false {["sessionId" := "s1"; "session_id" := "s1"]})) = None.
Proof.
  split; [reflexivity|]. split; [reflexivity|]. split; [reflexivity|].
  split; [|reflexivity]. eexists. split; reflexivity.
Qed.

(** ** The further properties at work *)

Lemma conversation_is_append_only_witness :
  run None (after None true first_turn) latte_turn =
    Some (after None true (first_turn ++ latte_turn)) /\
  messages (ui (after None true first_turn))
    `prefix_of` messages (ui (after None true (first_turn ++ latte_turn))) /\
  requests (after None true first_turn)
    `prefix_of` requests (after None true (first_turn ++ latte_turn)).
Proof.
  split; [reflexivity|].
  exact (conversation_is_append_only None (after None true first_turn)
           (after None true (first_turn ++ latte_turn)) latte_turn eq_refl).
Defined.

Lemma every_request_is_answered_once_witness :
  reachable None true ∅ (after None true overlapping_turns) /\
  length (messages (ui (after None true overlapping_turns))) +
  length (pending (after None true overlapping_turns)) =
    2 * length (requests (after None true overlapping_turns)).
Proof.
  assert (reachable None true ∅ (after None true overlapping_turns)) as H.
  { exists overlapping_turns. reflexivity. }
  split; [exact H|].
  exact (every_request_is_answered_once None true ∅ _ H).
Defined.

Lemma loading_only_while_in_flight_witness :
  reachable None true ∅ (after None true overlapping_turns) /\
  isLoading (ui (after None true overlapping_turns)) = true /\
  0 < length (pending (after None true overlapping_turns)).
Proof.
  assert (reachable None true ∅ (after None true overlapping_turns)) as H.
  { exists overlapping_turns. reflexivity. }
  split; [exact H|]. split; [reflexivity|].
  exact (loading_only_while_in_flight None true ∅ _ H eq_refl).
Defined.

Lemma loading_ends_when_fetches_settle_witness :
  reachable None true ∅ (after None true overlapping_turns) /\
  length [rejected; reply "A flat white." (Some "s2")] =
    length (pending (after None true overlapping_turns)) /\
  exists w',
    run None (after None true overlapping_turns)
        (fetch_settled 0 <$> [rejected; reply "A flat white." (Some "s2")]) =
      Some w' /\
    pending w' = [] /\
    isLoading (ui w') = false /\
    input_disabled (ui w') = false /\
    voice_button_disabled (ui w') = false /\
    length (messages (ui w')) =
      length (messages (ui (after None true overlapping_turns))) +
      length [rejected; reply "A flat white." (Some "s2")] /\
    requests w' = requests (after None true overlapping_turns).
Proof.
  assert (reachable None true ∅ (after None true overlapping_turns)) as H.
  { exists overlapping_turns. reflexivity. }
  split; [exact H|]. split; [reflexivity|].
  exact (loading_ends_when_fetches_settle None true ∅ _
           [rejected; reply "A flat white." (Some "s2")] H eq_refl).
Defined.

Lemma typed_sends_one_at_a_time_witness :
  run None (mount true ∅) [input_onChange "hi"; input_onKeyDown_Enter] =
    Some (after None true [input_onChange "hi"; input_onKeyDown_Enter]) /\
  along None typed_only (mount true ∅)
        [input_onChange "hi"; input_onKeyDown_Enter] = true /\
  length (pending (after None true
                     [input_onChange "hi"; input_onKeyDown_Enter])) =
    (if isLoading (ui (after None true
                         [input_onChange "hi"; input_onKeyDown_Enter]))
     then 1 else 0).
Proof.
  split; [reflexivity|]. split; [reflexivity|].
  exact (typed_sends_one_at_a_time None true ∅
           [input_onChange "hi"; input_onKeyDown_Enter] _ eq_refl eq_refl).
Defined.

Lemma send_button_click_always_sends_witness :
  step None (after None false [input_onChange " a latte "]) send_onClick =
    Some (after None false [input_onChange " a latte "; send_onClick]) /\
  requests (after None false [input_onChange " a latte "; send_onClick]) =
    requests (after None false [input_onChange " a latte "]) ++
    [chat_request None
       (trim (input (ui (after None false [input_onChange " a latte "]))))
       (sessionId (ui (after None false [input_onChange " a latte "])))].
Proof.
  split; [reflexivity|].
  exact (proj1 (proj2 (send_button_click_always_sends None
                         (after None false [input_onChange " a latte "])
                         _ eq_refl))).
Defined.

Lemma speech_result_takes_over_input_witness :
  step None (after None true [voice_onClick; input_onChange "a draft"])
       (recognition_onresult "a flat white") =
    Some (after None true
            [voice_onClick; input_onChange "a draft";
             recognition_onresult "a flat white"]) /\
  input (ui (after None true
               [voice_onClick; input_onChange "a draft";
                recognition_onresult "a flat white"])) = "".
Proof.
  split; [reflexivity|].
  exact (proj1 (speech_result_takes_over_input None
                  (after None true [voice_onClick; input_onChange "a draft"])
                  _ "a flat white" eq_refl)).
Defined.

Lemma without_speech_recognition_one_at_a_time_witness :
  false = false /\
  reachable None false ∅
    (after None false [voice_onClick; input_onChange "hi"; send_onClick]) /\
  recognition
    (ui (after None false [voice_onClick; input_onChange "hi"; send_onClick]))
    = false /\
  isListening
    (ui (after None false [voice_onClick; input_onChange "hi"; send_onClick]))
    = false /\
  engine (after None false [voice_onClick; input_onChange "hi"; send_onClick])
    = false /\
  length
    (pending
       (after None false [voice_onClick; input_onChange "hi"; send_onClick])) =
    (if isLoading
          (ui (after None false
                 [voice_onClick; input_onChange "hi"; send_onClick]))
     then 1 else 0).
Proof.
  assert (reachable None false ∅
            (after None false
               [voice_onClick; input_onChange "hi"; send_onClick])) as H.
  { exists [voice_onClick; input_onChange "hi"; send_onClick]. reflexivity. }
  split; [reflexivity|]. split; [exact H|].
  exact (without_speech_recognition_one_at_a_time None false ∅ _ eq_refl H).
Defined.

Lemma listening_only_while_engine_runs_witness :
  reachable None true ∅ (after None true [voice_onClick]) /\
  (isListening (ui (after None true [voice_onClick])) = true ->
   engine (after None true [voice_onClick]) = true) /\
  (engine (after None true [voice_onClick]) = true -> true = true) /\
  recognition (ui (after None true [voice_onClick])) = true.
Proof.
  assert (reachable None true ∅ (after None true [voice_onClick])) as H.
  { exists [voice_onClick]. reflexivity. }
  split; [exact H|].
  exact (listening_only_while_engine_runs None true ∅ _ H).
Defined.

Lemma images_only_on_assistant_messages_witness :
  reachable None true ∅ (after None true (first_turn ++ latte_turn)) /\
  Forall (fun m => forall u, imageUrl m = Some u ->
                             role m = "assistant" /\ truthy u = true)
         (messages (ui (after None true (first_turn ++ latte_turn)))).
Proof.
  assert (reachable None true ∅ (after None true (first_turn ++ latte_turn)))
    as H.
  { exists (first_turn ++ latte_turn). reflexivity. }
  split; [exact H|].
  exact (images_only_on_assistant_messages None true ∅ _ H).
Defined.

Lemma requests_carry_the_user_messages_witness :
  reachable None true ∅ (after None true (first_turn ++ overlapping_turns)) /\
  map (fun r => field "message" (body r))
      (requests (after None true (first_turn ++ overlapping_turns))) =
    map (fun m => Some (JSON_string (content m)))
        (user_turns (ui (after None true (first_turn ++ overlapping_turns)))) /\
  Forall (fun m => content m <> "")
         (user_turns (ui (after None true (first_turn ++ overlapping_turns)))).
Proof.
  assert (reachable None true ∅
            (after None true (first_turn ++ overlapping_turns))) as H.
  { exists (first_turn ++ overlapping_turns). reflexivity. }
  split; [exact H|].
  exact (requests_carry_the_user_messages None true ∅ _ H).
Defined.

Lemma typed_messages_are_trimmed_witness :
  run None (mount true ∅) (first_turn ++ latte_turn) =
    Some (after None true (first_turn ++ latte_turn)) /\
  along None typed_only (mount true ∅) (first_turn ++ latte_turn) = true /\
  Forall (fun m => trimmed (content m))
         (user_turns (ui (after None true (first_turn ++ latte_turn)))).
Proof.
  split; [reflexivity|]. split; [reflexivity|].
  exact (typed_messages_are_trimmed None true ∅ (first_turn ++ latte_turn) _
           eq_refl eq_refl).
Defined.

Lemma page_shows_every_image_witness :
  reachable None true ∅ (after None true (first_turn ++ latte_turn)) /\
  collect image_src (render (ui (after None true (first_turn ++ latte_turn))))
    = omap imageUrl
        (messages (ui (after None true (first_turn ++ latte_turn)))).
Proof.
  assert (reachable None true ∅ (after None true (first_turn ++ latte_turn)))
    as H.
  { exists (first_turn ++ latte_turn). reflexivity. }
  split; [exact H|].
  exact (page_shows_every_image None true ∅ _ H).
Defined.

Lemma welcome_until_first_turn_witness :
  reachable None true ∅ (after None true [input_onChange "hi"]) /\
  collect welcome_panel (render (ui (after None true [input_onChange "hi"])))
    = match requests (after None true [input_onChange "hi"]) with
      | [] => [()]
      | _ :: _ => []
      end.
Proof.
  assert (reachable None true ∅ (after None true [input_onChange "hi"])) as H.
  { exists [input_onChange "hi"]. reflexivity. }
  split; [exact H|].
  exact (welcome_until_first_turn None true ∅ _ H).
Defined.

Lemma session_label_is_stable_witness :
  run None (mount false ∅) first_turn = Some (after None false first_turn) /\
  run None (after None false first_turn) latte_turn =
    Some (after None false (first_turn ++ latte_turn)) /\
  along None typed_only (mount false ∅) (first_turn ++ latte_turn) = true /\
  collect span_text (render (ui (after None false first_turn))) =
    ["Session: 01234567..."] /\
  collect span_text
    (render (ui (after None false (first_turn ++ latte_turn)))) =
    ["Session: 01234567..."].
Proof.
  split; [reflexivity|]. split; [reflexivity|]. split; [reflexivity|].
  split; [reflexivity|].
  exact (proj1 (session_label_is_stable None false ∅ first_turn latte_turn
                  _ _ "Session: 01234567..."
                  eq_refl eq_refl eq_refl eq_refl)).
Defined.

Lemma unparsable_body_is_a_failure_witness :
  step None (after None false [input_onChange "hi"; input_onKeyDown_Enter])
       (fetch_settled 0 (fulfilled (mkResponse true 200 None))) =
    Some (after None false
            [input_onChange "hi"; input_onKeyDown_Enter;
             fetch_settled 0 (fulfilled (mkResponse true 200 None))]) /\
  json (mkResponse true 200 None) = None /\
  messages
    (ui (after None false
           [input_onChange "hi"; input_onKeyDown_Enter;
            fetch_settled 0 (fulfilled (mkResponse true 200 None))])) =
    messages (ui (after None false
                    [input_onChange "hi"; input_onKeyDown_Enter])) ++
    [errorMessage].
Proof.
  split; [reflexivity|]. split; [reflexivity|].
  exact (proj1 (unparsable_body_is_a_failure None
                  (after None false
                     [input_onChange "hi"; input_onKeyDown_Enter])
                  _ 0 (mkResponse true 200 None) eq_refl eq_refl)).
Defined.

(** C1 fails on the code for a turn made by voice.  After a typed turn the
    component holds the session identifier the server returned; a typed
    second turn carries it, but a speech result is sent by the
    [handleSend] of the first render, whose [sessionId] is [null] for ever:
    the body of that request has [session_id] null, not the identifier the
    component holds. *)
Lemma speech_request_omits_session_identifier :
  sessionId (ui (after None true (first_turn ++ [voice_onClick]))) =
    Some "0123456789abcdef" /\
  step None (after None true (first_turn ++ [voice_onClick]))
       (recognition_onresult "a flat white") =
    Some (after None true
            (first_turn ++
             [voice_onClick; recognition_onresult "a flat white"])) /\
  body <$>
    last (requests
            (after None true
               (first_turn ++
                [voice_onClick; recognition_onresult "a flat white"]))) =
    Some [("message", JSON_string "a flat white");
          ("session_id", JSON_null)] /\
  body <$>
    last (requests
            (after None true
               (first_turn ++
                [input_onChange "a flat white"; input_onKeyDown_Enter]))) =
    Some [("message", JSON_string "a flat white");
          ("session_id", JSON_string "0123456789abcdef")].
Proof. vm_compute. repeat split. Qed.

(** C3 fails on the code for a turn made by voice.  The first, typed turn
    creates the session; the turn made by voice is sent without it, and the
    response to it, handled by the first render's [handleSend] whose
    [sessionId] is [null], overwrites the identifier the component
    holds. *)
Lemma speech_turn_overwrites_session_identifier :
  run None (mount true ∅)
      (first_turn ++ [voice_onClick; recognition_onresult "a flat white"]) =
    Some (after None true
            (first_turn ++
             [voice_onClick; recognition_onresult "a flat white"])) /\
  sessionId
    (ui (after None true
           (first_turn ++
            [voice_onClick; recognition_onresult "a flat white"]))) =
    Some "0123456789abcdef" /\
  field "session_id" <$>
    (body <$>
       last (requests
               (after None true
                  (first_turn ++
                   [voice_onClick; recognition_onresult "a flat white"])))) =
    Some (Some JSON_null) /\
  step None
       (after None true
          (first_turn ++
           [voice_onClick; recognition_onresult "a flat white"]))
       (fetch_settled 0 (reply "Coming up." (Some "another-session"))) =
    Some (after None true
            (first_turn ++
             [voice_onClick; recognition_onresult "a flat white";
              fetch_settled 0 (reply "Coming up." (Some "another-session"))])) /\
  sessionId
    (ui (after None true
           (first_turn ++
            [voice_onClick; recognition_onresult "a flat white";
             fetch_settled 0 (reply "Coming up." (Some "another-session"))]))) =
    Some "another-session".
Proof. vm_compute. repeat split. Qed.
